(** * ci-deploy: commit matching, run cache synchronisation and run selection

    A shallow embedding of [bin/ci-deploy.py].  Python objects become
    records, generators become the list of the values they yield,
    exceptions become the [Raise] branch of [Result], and what the script
    prints, fetches and writes to the cache file is returned next to the
    result. *)

From stdpp Require Import gmap strings list pretty.

Open Scope string_scope.
Open Scope list_scope.

(** ** Exceptions *)

Inductive exn :=
| DeployError (msg : string)
| ConfigError (msg : string)
| KeyError
| JSONDecodeError
| ConnectionError.

Inductive Result (A : Type) :=
| Return (a : A)
| Raise (e : exn).
Arguments Return {A} a.
Arguments Raise {A} e.

(** ** Profiles *)

Record Profile := {
  ssh : string;
  deploy_dir : string;
  files : list string;
  workflow_url : string;
  artifact_name : string;
  symlinks : list string;
  post : string;
}.

Definition ASSETS_FILES : list string :=
  [".github/workflows/assets.yml"; "public"; "ui"; "package.json"; "yarn.lock"].

Definition SERVER_FILES : list string :=
  [".github/workflows/server.yml"; "app"; "conf"; "modules"; "project";
   "translation"; "build.sbt"; "lila"; "conf/application.conf.default";
   ".sbtopts.default"].

Definition ASSETS_BUILD_URL : string :=
  "https://api.github.com/repos/ornicar/lila/actions/workflows/assets.yml/runs".

Definition SERVER_BUILD_URL : string :=
  "https://api.github.com/repos/ornicar/lila/actions/workflows/server.yml/runs".

Definition asset_profile (ssh deploy_dir post : string) : Profile :=
  {| ssh := ssh; deploy_dir := deploy_dir; files := ASSETS_FILES;
     workflow_url := ASSETS_BUILD_URL; artifact_name := "lila-assets";
     symlinks := ["public"]; post := post |}.

Definition server_profile (ssh deploy_dir post : string) : Profile :=
  {| ssh := ssh; deploy_dir := deploy_dir; files := SERVER_FILES;
     workflow_url := SERVER_BUILD_URL; artifact_name := "lila-server";
     symlinks := ["lib"; "bin"]; post := post |}.

(** The registry of profiles; the keyword defaults of [asset_profile] and
    [server_profile] are written out. *)
Definition PROFILES : list (string * Profile) :=
  [("khiaw-assets",
    asset_profile "root@khiaw.lichess.ovh" "/home/lichess-deploy"
                  "echo Reload assets on https://lichess.dev/dev/cli");
   ("khiaw-server",
    server_profile "root@khiaw.lichess.ovh" "/home/lichess-deploy"
                   "systemctl restart lichess-stage");
   ("ocean-server",
    server_profile "root@ocean.lichess.ovh" "/home/lichess"
                   "systemctl restart lichess");
   ("ocean-assets",
    asset_profile "root@ocean.lichess.ovh" "/home/lichess"
                  "echo Reload assets on https://lichess.org/dev/cli");
   ("maple-assets",
    asset_profile "root@maple.lichess.ovh" "/home/lichess-deploy"
                  "echo Reload assets on https://lichess.org/dev/cli")].

(** ** Commits

    A git tree maps a path to the hex digest of the object stored there;
    [tree[path]] raises [KeyError] for a path that is absent, which is the
    [None] of the lookup.  A commit object carries its digest, its tree and
    its parent commit objects; history is acyclic, so the objects reached
    through [parents] form a finite tree in which a shared ancestor occurs
    once per path leading to it, exactly as the recursion meets it. *)

#[warnings="-register-all"] Inductive Commit := mkCommit {
  hexsha : string;
  tree : gmap string string;
  parents : list Commit;
}.

(** [hash_files]: the tuple of digests, or [None] for [KeyError]. *)
Definition hash_files (tree : gmap string string) (files : list string)
  : option (list string) :=
  mapM (fun path => tree !! path) files.

(** The guard at the top of [find_commits]: the commit is kept when no
    [KeyError] is raised and the tuple is not different from the wanted one. *)
Definition keeps (files wanted_hash : list string) (commit : Commit) : bool :=
  match hash_files (tree commit) files with
  | Some t => bool_decide (t = wanted_hash)
  | None => false
  end.

(** [find_commits]: the commit ids in the order the generator yields them. *)
Fixpoint find_commits (commit : Commit) (files wanted_hash : list string)
  : list string :=
  match hash_files (tree commit) files with
  | Some t =>
      if bool_decide (t = wanted_hash) then
        hexsha commit ::
        (fix each (ps : list Commit) : list string :=
           match ps with
           | [] => []
           | parent :: ps' => find_commits parent files wanted_hash ++ each ps'
           end) (parents commit)
      else []
  | None => []
  end.

(** The commits on which [find_commits] is entered, in call order: the same
    recursion, recording the argument of every call. *)
Fixpoint find_commits_calls (commit : Commit) (files wanted_hash : list string)
  : list string :=
  hexsha commit ::
  match hash_files (tree commit) files with
  | Some t =>
      if bool_decide (t = wanted_hash) then
        (fix each (ps : list Commit) : list string :=
           match ps with
           | [] => []
           | parent :: ps' =>
               find_commits_calls parent files wanted_hash ++ each ps'
           end) (parents commit)
      else []
  | None => []
  end.

(** ** Workflow runs and the run cache

    A run is the JSON object of the feed with the keys the script reads.
    [conclusion] is [null] while a run is in progress.  The cache stores the
    run together with the [_workflow_url] key that [workflow_runs] adds. *)

Record Run := {
  run_id : Z;
  run_status : string;
  run_conclusion : option string;
  run_head_commit_id : string;
  run_html_url : string;
  run_artifacts_url : string;
}.

Record CachedRun := {
  run : Run;
  _workflow_url : string;
}.

Record Artifact := {
  art_name : string;
  art_expired : bool;
  art_archive_download_url : string;
}.

(** A Python [dict] keyed by run id: iteration follows insertion order, and
    assigning to a key that is present keeps its position. *)
Definition dict (V : Type) := list (Z * V).

Fixpoint dict_get {V} (k : Z) (d : dict V) : option V :=
  match d with
  | [] => None
  | (k', v) :: d' => if bool_decide (k' = k) then Some v else dict_get k d'
  end.

Fixpoint dict_set {V} (k : Z) (v : V) (d : dict V) : dict V :=
  match d with
  | [] => [(k, v)]
  | (k', v') :: d' =>
      if bool_decide (k' = k) then (k, v) :: d' else (k', v') :: dict_set k v d'
  end.

Definition dict_values {V} (d : dict V) : list V := map snd d.

(** ** The remote

    [session.get(url)] either raises (no answer) or gives a response with a
    status code, a body text, the decoded JSON body (absent when [json()]
    raises) and the [next] link of the pagination header. *)

Record Json := {
  json_workflow_runs : option (list Run);
  json_artifacts : option (list Artifact);
}.

Record Response := {
  status_code : Z;
  text : string;
  json : option Json;
  links_next : option string;
}.

Definition Session := string -> option Response.

(** ** [workflow_runs] *)

Record SyncState := {
  data : dict CachedRun;
  new : nat;
  synced : bool;
}.

Definition known_completed (d : dict CachedRun) (k : Z) : bool :=
  match dict_get k d with
  | Some c => bool_decide (run_status (run c) = "completed")
  | None => false
  end.

(** One iteration of [for run in res.json()["workflow_runs"]]. *)
Definition merge_run (wurl : string) (st : SyncState) (r : Run) : SyncState :=
  let known := known_completed (data st) (run_id r) in
  {| data := dict_set (run_id r) {| run := r; _workflow_url := wurl |} (data st);
     new := if known then new st else S (new st);
     synced := if known then true else synced st |}.

Record Loop := {
  loop_out : list string;
  loop_fetched : list string;
  loop_state : SyncState;
  loop_raised : option exn;
}.

Definition loop_stop (out fetched : list string) (st : SyncState)
    (e : option exn) : Loop :=
  {| loop_out := out; loop_fetched := fetched; loop_state := st;
     loop_raised := e |}.

Definition fetching : string := "Fetching workflow runs ...".

Definition loop_after (url : string) (l : Loop) : Loop :=
  {| loop_out := fetching :: loop_out l;
     loop_fetched := url :: loop_fetched l;
     loop_state := loop_state l;
     loop_raised := loop_raised l |}.

(** The [while not synced] loop of [workflow_runs].  [None] when the fuel is
    used up before the loop ends. *)
Fixpoint fetch_loop (fuel : nat) (session : Session) (wurl url : string)
    (st : SyncState) : option Loop :=
  if synced st then Some (loop_stop [] [] st None) else
  match fuel with
  | O => None
  | S fuel' =>
      match session url with
      | None => Some (loop_stop [fetching] [url] st (Some ConnectionError))
      | Some res =>
          if bool_decide (status_code res ≠ 200%Z) then
            Some (loop_stop
                    [fetching;
                     "Unexpected response: " +:+ pretty (status_code res)
                       +:+ " " +:+ text res]
                    [url] st None)
          else
            match json res with
            | None => Some (loop_stop [fetching] [url] st (Some JSONDecodeError))
            | Some j =>
                match json_workflow_runs j with
                | None => Some (loop_stop [fetching] [url] st (Some KeyError))
                | Some runs =>
                    let st' := fold_left (merge_run wurl) runs st in
                    match links_next res with
                    | None => Some (loop_stop [fetching] [url] st' None)
                    | Some url' =>
                        loop_after url <$> fetch_loop fuel' session wurl url' st'
                    end
                end
            end
      end
  end.

Record Sync := {
  sync_out : list string;
  sync_fetched : list string;
  sync_file : option (dict CachedRun);
  sync_result : Result (dict CachedRun);
}.

(** [file] is the content of [workflow_runs.pickle]: [None] for a file that
    is empty or was just created by [open(..., "ab+")]. *)
Definition workflow_runs (fuel : nat) (profile : Profile) (session : Session)
    (file : option (dict CachedRun)) : option Sync :=
  let '(out0, data0) :=
    match file with
    | Some d => ([], d)
    | None => (["Created workflow run database."], [])
    end in
  l ← fetch_loop fuel session (workflow_url profile) (workflow_url profile)
        {| data := data0; new := 0; synced := false |};
  Some {| sync_out :=
            out0 ++ loop_out l ++
            ["Added/updated " +:+ pretty (new (loop_state l))
               +:+ " workflow run(s)."];
          sync_fetched := loop_fetched l;
          sync_file := Some (data (loop_state l));
          sync_result :=
            match loop_raised l with
            | Some e => Raise e
            | None => Return (data (loop_state l))
            end |}.

(** ** [find_workflow_run] *)

Definition scan_run (profile : Profile) (wanted_commits : gset string)
    (acc : list string * option CachedRun) (r : CachedRun)
  : list string * option CachedRun :=
  let '(out, found) := acc in
  if bool_decide (run_head_commit_id (run r) ∉ wanted_commits)
     || bool_decide (_workflow_url r ≠ workflow_url profile)
  then (out, found)
  else if bool_decide (run_status (run r) ≠ "completed") then
    (out ++ ["- " +:+ run_html_url (run r) +:+ " PENDING."], found)
  else if bool_decide (run_conclusion (run r) ≠ Some "success") then
    (out ++ ["- " +:+ run_html_url (run r) +:+ " FAILED."], found)
  else
    (out ++ ["- " +:+ run_html_url (run r) +:+ " succeeded."],
     match found with None => Some r | Some _ => found end).

Definition no_run : exn :=
  DeployError "Did not find successful matching workflow run.".

Definition find_workflow_run (profile : Profile) (runs : dict CachedRun)
    (wanted_commits : gset string) : list string * Result CachedRun :=
  let '(out, found) :=
    fold_left (scan_run profile wanted_commits) (dict_values runs)
              (["Matching workflow runs:"], None) in
  match found with
  | None => (out, Raise no_run)
  | Some r => (out ++ ["Selected " +:+ run_html_url (run r) +:+ "."], Return r)
  end.

(** ** [artifact_url] *)

Fixpoint artifact_scan (artifacts : list Artifact) (name : string)
  : list string * Result string :=
  match artifacts with
  | [] => ([], Raise (DeployError ("Did not find artifact " +:+ name +:+ ".")))
  | artifact :: rest =>
      if bool_decide (art_name artifact = name) then
        (if art_expired artifact then ["Artifact expired."] else [],
         Return (art_archive_download_url artifact))
      else artifact_scan rest name
  end.

Definition artifact_url (session : Session) (r : CachedRun) (name : string)
  : list string * Result string :=
  match session (run_artifacts_url (run r)) with
  | None => ([], Raise ConnectionError)
  | Some res =>
      match json res with
      | None => ([], Raise JSONDecodeError)
      | Some j =>
          match json_artifacts j with
          | None => ([], Raise KeyError)
          | Some artifacts => artifact_scan artifacts name
          end
      end
  end.

(** ** [deploy]

    The repository gives the head commit and holds the cache file.  The
    outcome lists what was printed, the commits [find_commits] was entered
    on, the urls fetched, the cache file afterwards, and the result: the
    run and the artifact url handed to [deploy_script] and [tmux], or the
    exception that ended the deploy. *)

Record Repo := {
  head_commit : Commit;
  common_dir_file : option (dict CachedRun);
}.

Record Deploy := {
  d_out : list string;
  d_calls : list string;
  d_fetched : list string;
  d_file : option (dict CachedRun);
  d_result : Result (CachedRun * string);
}.

Definition no_file : exn := DeployError "Commit is missing a required file.".

(** [set(find_commits(repo.head.commit, profile["files"], wanted_hash))] *)
Definition wanted_commits_of (profile : Profile) (repo : Repo)
    (wanted_hash : list string) : gset string :=
  list_to_set (find_commits (head_commit repo) (files profile) wanted_hash).

Definition deploy (fuel : nat) (profile : Profile) (repo : Repo)
    (commit : Commit) (session : Session) : option Deploy :=
  let out0 := ["# Preparing deploy ..."] in
  match hash_files (tree commit) (files profile) with
  | None =>
      Some {| d_out := out0; d_calls := []; d_fetched := [];
              d_file := common_dir_file repo; d_result := Raise no_file |}
  | Some wanted_hash =>
      let wanted_commits := wanted_commits_of profile repo wanted_hash in
      let calls :=
        find_commits_calls (head_commit repo) (files profile) wanted_hash in
      let out1 :=
        out0 ++ ["Found " +:+ pretty (size wanted_commits)
                   +:+ " matching commits."] in
      s ← workflow_runs fuel profile session (common_dir_file repo);
      let out2 := out1 ++ sync_out s in
      match sync_result s with
      | Raise e =>
          Some {| d_out := out2; d_calls := calls;
                  d_fetched := sync_fetched s; d_file := sync_file s;
                  d_result := Raise e |}
      | Return runs =>
          let '(out_f, found) := find_workflow_run profile runs wanted_commits in
          let out3 := out2 ++ out_f in
          match found with
          | Raise e =>
              Some {| d_out := out3; d_calls := calls;
                      d_fetched := sync_fetched s; d_file := sync_file s;
                      d_result := Raise e |}
          | Return r =>
              let fetched := sync_fetched s ++ [run_artifacts_url (run r)] in
              let '(out_a, got) :=
                artifact_url session r (artifact_name profile) in
              let out4 := out3 ++ out_a in
              match got with
              | Raise e =>
                  Some {| d_out := out4; d_calls := calls; d_fetched := fetched;
                          d_file := sync_file s; d_result := Raise e |}
              | Return url =>
                  Some {| d_out :=
                            out4 ++ ["Deploying " +:+ url +:+ " to "
                                       +:+ ssh profile +:+ "..."];
                          d_calls := calls; d_fetched := fetched;
                          d_file := sync_file s; d_result := Return (r, url) |}
              end
          end
      end
  end.

(** ** Histories *)

(** [reachable c d]: [d] is reached from [c] by parent links. *)
Inductive reachable : Commit -> Commit -> Prop :=
| reach_self c : reachable c c
| reach_parent c p d : p ∈ parents c -> reachable p d -> reachable c d.

(** [kept_chain files wanted c d]: a chain of parent links from [c] to [d]
    on which every commit, [c] and [d] included, passes the guard. *)
Inductive kept_chain (files wanted : list string) : Commit -> Commit -> Prop :=
| kept_self c : keeps files wanted c = true -> kept_chain files wanted c c
| kept_parent c p d :
    keeps files wanted c = true -> p ∈ parents c ->
    kept_chain files wanted p d -> kept_chain files wanted c d.

(** [entered files wanted c d]: a chain of parent links from [c] to [d] on
    which every commit before [d] passes the guard. *)
Inductive entered (files wanted : list string) : Commit -> Commit -> Prop :=
| entered_self c : entered files wanted c c
| entered_parent c p d :
    keeps files wanted c = true -> p ∈ parents c ->
    entered files wanted p d -> entered files wanted c d.

(** The commit fails the guard of [find_commits]: a tracked path is absent
    from its tree, or its tuple differs from the wanted one. *)
Definition fails_match (files wanted : list string) (c : Commit) : Prop :=
  (exists path, path ∈ files /\ tree c !! path = None) \/
  (exists t, hash_files (tree c) files = Some t /\ t <> wanted).

(** A linear history [X -> Z -> Y] over the tracked paths [app] and [conf]:
    [X] and [Y] agree, [Z] differs in [conf]. *)
Definition app_conf : list string := ["app"; "conf"].
Definition tree_same : gmap string string := {[ "app" := "a1"; "conf" := "c1" ]}.
Definition tree_conf : gmap string string := {[ "app" := "a1"; "conf" := "c2" ]}.
Definition tree_no_conf : gmap string string := {[ "app" := "a1" ]}.
Definition commit_Y : Commit := mkCommit "Y" tree_same [].
Definition commit_Z : Commit := mkCommit "Z" tree_conf [commit_Y].
Definition commit_X : Commit := mkCommit "X" tree_same [commit_Z].
(** The same history with an intermediate commit that lacks [conf]. *)
Definition commit_M : Commit := mkCommit "M" tree_no_conf [commit_Y].
Definition commit_H : Commit := mkCommit "H" tree_same [commit_M].

(** ** Run selection read as a filter *)

(** The runs the scan looks at: head commit wanted and feed tag equal to the
    profile's feed. *)
Definition relevant (profile : Profile) (wanted_commits : gset string)
    (r : CachedRun) : bool :=
  bool_decide (run_head_commit_id (run r) ∈ wanted_commits)
  && bool_decide (_workflow_url r = workflow_url profile).

Definition successful (r : CachedRun) : bool :=
  bool_decide (run_status (run r) = "completed")
  && bool_decide (run_conclusion (run r) = Some "success").

(** The line printed for a run that is looked at. *)
Definition run_line (r : CachedRun) : string :=
  "- " +:+ run_html_url (run r) +:+
  (if bool_decide (run_status (run r) = "completed") then
     if bool_decide (run_conclusion (run r) = Some "success")
     then " succeeded." else " FAILED."
   else " PENDING.").

(** Sample data: the staging server profile and a small cache. *)
Definition khiaw_server : Profile :=
  server_profile "root@khiaw.lichess.ovh" "/home/lichess-deploy"
                 "systemctl restart lichess-stage".

Definition sample_run (i : Z) (st : string) (c : option string) (h : string)
  : Run :=
  {| run_id := i; run_status := st; run_conclusion := c;
     run_head_commit_id := h;
     run_html_url := "https://github.com/ornicar/lila/actions/runs/" +:+ pretty i;
     run_artifacts_url := "https://api.github.com/runs/" +:+ pretty i +:+ "/artifacts" |}.

Definition cached (wurl : string) (r : Run) : CachedRun :=
  {| run := r; _workflow_url := wurl |}.

Definition run_pending : Run := sample_run 14 "in_progress" None "X".
Definition run_failed : Run := sample_run 13 "completed" (Some "failure") "X".
Definition run_good : Run := sample_run 12 "completed" (Some "success") "X".
Definition run_late : Run := sample_run 11 "completed" (Some "success") "X".
Definition run_elsewhere : Run := sample_run 15 "completed" (Some "success") "Q".

Definition sample_cache : dict CachedRun :=
  [(14%Z, cached SERVER_BUILD_URL run_pending);
   (13%Z, cached SERVER_BUILD_URL run_failed);
   (12%Z, cached SERVER_BUILD_URL run_good);
   (11%Z, cached SERVER_BUILD_URL run_late)].

Definition sample_artifacts : list Artifact :=
  [ {| art_name := "lila-assets"; art_expired := false;
       art_archive_download_url := "https://api.github.com/artifacts/1/zip" |};
    {| art_name := "lila-server"; art_expired := true;
       art_archive_download_url := "https://api.github.com/artifacts/2/zip" |} ].

Definition artifact_session : Session := fun url =>
  if bool_decide (url = run_artifacts_url run_good) then
    Some {| status_code := 200; text := "";
            json := Some {| json_workflow_runs := None;
                            json_artifacts := Some sample_artifacts |};
            links_next := None |}
  else None.

(** ** The feed as the synchronizer sees it *)

(** What one fetch amounts to for the loop: an exception, a response that
    is not 200, or a page of runs with its [next] link. *)
Inductive Fetch :=
| FetchRaised (e : exn)
| FetchRefused (res : Response)
| FetchPage (runs : list Run) (next : option string).

Definition fetch (session : Session) (url : string) : Fetch :=
  match session url with
  | None => FetchRaised ConnectionError
  | Some res =>
      if bool_decide (status_code res ≠ 200%Z) then FetchRefused res
      else match json res with
           | None => FetchRaised JSONDecodeError
           | Some j =>
               match json_workflow_runs j with
               | None => FetchRaised KeyError
               | Some runs => FetchPage runs (links_next res)
               end
           end
  end.

(** The runs that a fetch of [url] merges into the map: those of a page;
    none when the fetch raises or is refused. *)
Definition page_runs (session : Session) (url : string) : list Run :=
  match fetch session url with
  | FetchPage runs _ => runs
  | _ => []
  end.

Definition fetched_runs (session : Session) (urls : list string) : list Run :=
  urls ≫= page_runs session.
Arguments fetched_runs : simpl never.

(** Following [next] links from [url], at most [n] pages are fetched before
    a page without a [next] link, a refused fetch or an exception. *)
Fixpoint feed_ends (session : Session) (url : string) (n : nat) : bool :=
  match n with
  | O => false
  | S n' =>
      match fetch session url with
      | FetchPage _ (Some url') => feed_ends session url' n'
      | _ => true
      end
  end.

Definition sync_start (prior : dict CachedRun) : SyncState :=
  {| data := prior; new := 0; synced := false |}.

Global Instance Run_eq_dec : EqDecision Run.
Proof. solve_decision. Defined.

(** Every id comes with one record in [rs]. *)
Definition ids_consistent (rs : list Run) : bool :=
  forallb (fun r =>
    forallb (fun r' => bool_decide (run_id r = run_id r' -> r = r')) rs) rs.

(** The runs of [rs] that the map [d] holds as completed are completed in
    [rs] too. *)
Definition completed_stay (d : dict CachedRun) (rs : list Run) : bool :=
  forallb (fun r =>
    bool_decide (known_completed d (run_id r) = true ->
                 run_status r = "completed")) rs.

(** Sample feeds for the server workflow. *)
Definition page (runs : list Run) (next : option string) : Response :=
  {| status_code := 200; text := "";
     json := Some {| json_workflow_runs := Some runs; json_artifacts := None |};
     links_next := next |}.

Definition page2_url : string := SERVER_BUILD_URL +:+ "?page=2".

Definition feed_two_pages : Session := fun url =>
  if bool_decide (url = SERVER_BUILD_URL) then
    Some (page [run_pending; run_failed] (Some page2_url))
  else if bool_decide (url = page2_url) then
    Some (page [run_good; run_late] None)
  else None.

(** The second page cannot be reached: [session.get] raises. *)
Definition feed_broken : Session := fun url =>
  if bool_decide (url = SERVER_BUILD_URL) then
    Some (page [run_pending; run_failed] (Some page2_url))
  else None.

Definition feed_500 : Session := fun _ =>
  Some {| status_code := 500; text := "Internal Server Error";
          json := None; links_next := None |}.

(** Run 13 was completed when it was cached and has been started again
    since: the feed lists it as in progress, and lists older runs on the
    next page. *)
Definition run_restarted : Run := sample_run 13 "in_progress" None "X".

Definition feed_rerun : Session := fun url =>
  if bool_decide (url = SERVER_BUILD_URL) then
    Some (page [run_restarted] (Some page2_url))
  else if bool_decide (url = page2_url) then
    Some (page [run_good] None)
  else None.

Definition cache_before_rerun : dict CachedRun :=
  [(13%Z, cached SERVER_BUILD_URL run_failed)].

(** A profile tracking [app] and [conf], a repository whose head is [X]
    with no cache file yet, and a remote serving the feed and the artifact
    listing of run 12. *)
Definition app_conf_profile : Profile :=
  {| ssh := "root@khiaw.lichess.ovh"; deploy_dir := "/home/lichess-deploy";
     files := app_conf; workflow_url := SERVER_BUILD_URL;
     artifact_name := "lila-server"; symlinks := ["lib"; "bin"];
     post := "systemctl restart lichess-stage" |}.

Definition sample_repo : Repo :=
  {| head_commit := commit_X; common_dir_file := None |}.

Definition full_session : Session := fun url =>
  match feed_two_pages url with
  | Some res => Some res
  | None => artifact_session url
  end.

(** ** [main] and the script's exit status

    The parsed command line, the environment, the checkout that [git.Repo]
    finds and the remote are the inputs.  [repo.commit(name)] either gives a
    commit or raises [BadName] with a message of its own; the remote answers
    a session according to the token it carries. *)

Record Args := {
  args_profile : string;
  args_dry_run : bool;
  args_commit : option string;
}.

Record Checkout := {
  checkout_repo : Repo;
  is_dirty : bool;
  repo_commit : string -> string + Commit;
}.

Definition newline : string := String (Ascii.ascii_of_nat 10) EmptyString.

Definition token_help : string :=
  "Need environment variable GITHUB_API_TOKEN." +:+ newline +:+
  "* Create token on https://github.com/settings/tokens/new" +:+ newline +:+
  "* Required scope: public_repo".

Definition dirty_help : string :=
  "Repo is dirty. Run with --commit HEAD to ignore.".

(** How [main] ends: the parser rejects a profile name outside the
    registry, or [main] ends as a deploy does (a [ConfigError] raised by
    [main] itself leaves no trace but the exception). *)
Inductive Ended :=
| Usage
| Finished (d : Deploy).

Definition config_error (co : Checkout) (msg : string) : Deploy :=
  {| d_out := []; d_calls := []; d_fetched := [];
     d_file := common_dir_file (checkout_repo co);
     d_result := Raise (ConfigError msg) |}.

Definition main (fuel : nat) (args : Args) (environ : gmap string string)
    (co : Checkout) (remote : string -> Session) : option Ended :=
  match (list_to_map PROFILES : gmap string Profile) !! args_profile args with
  | None => Some Usage
  | Some profile =>
      match environ !! "GITHUB_API_TOKEN" with
      | None => Some (Finished (config_error co token_help))
      | Some github_api_token =>
          match args_commit args with
          | None =>
              if is_dirty co then Some (Finished (config_error co dirty_help))
              else
                Finished <$>
                  deploy fuel profile (checkout_repo co)
                         (head_commit (checkout_repo co))
                         (remote github_api_token)
          | Some name =>
              match repo_commit co name with
              | inl err => Some (Finished (config_error co err))
              | inr commit =>
                  Finished <$>
                    deploy fuel profile (checkout_repo co) commit
                           (remote github_api_token)
              end
          end
      end
  end.

(** The [if __name__ == "__main__"] block: what is printed and the exit
    status.  The value [main] returns is dropped; an exception that is
    neither a [ConfigError] nor a [DeployError] is not caught, and the
    interpreter then exits with status 1; the parser exits with status 2. *)
Definition script (fuel : nat) (args : Args) (environ : gmap string string)
    (co : Checkout) (remote : string -> Session) : option (list string * Z) :=
  e ← main fuel args environ co remote;
  Some match e with
       | Usage => ([], 2%Z)
       | Finished d =>
           match d_result d with
           | Return _ => (d_out d, 0%Z)
           | Raise (ConfigError msg) => (d_out d ++ [msg], 128%Z)
           | Raise (DeployError msg) => (d_out d ++ [msg], 1%Z)
           | Raise _ => (d_out d, 1%Z)
           end
       end.

(** What makes [main] raise a [ConfigError]. *)
Definition config_fault (args : Args) (environ : gmap string string)
    (co : Checkout) : Prop :=
  environ !! "GITHUB_API_TOKEN" = None \/
  (args_commit args = None /\ is_dirty co = true) \/
  (exists name err, args_commit args = Some name /\
                    repo_commit co name = inl err).

(** The feed ids already under a key of the map. *)
Definition dict_keys {V} (d : dict V) : list Z := map fst d.

(** Every entry sits under the id of its run. *)
Definition keyed_by_id (d : dict CachedRun) : Prop :=
  forall k c, (k, c) ∈ d -> run_id (run c) = k.

(** Sample command line, environment and checkout. *)
Definition sample_args : Args :=
  {| args_profile := "khiaw-server"; args_dry_run := false;
     args_commit := None |}.

Definition sample_environ : gmap string string :=
  {[ "GITHUB_API_TOKEN" := "0123456789abcdef" ]}.

Definition dirty_checkout : Checkout :=
  {| checkout_repo := sample_repo; is_dirty := true;
     repo_commit := fun name =>
       if bool_decide (name = "HEAD") then inr commit_X
       else inl ("Ref '" +:+ name +:+ "' did not resolve to an object") |}.

Definition assets_runs_feed : Session := fun url =>
  if bool_decide (url = ASSETS_BUILD_URL) then
    Some (page [run_good; run_late] None)
  else None.

Definition newer_runs_feed : Session := fun url =>
  if bool_decide (url = SERVER_BUILD_URL) then
    Some (page [sample_run 17 "in_progress" None "X";
                sample_run 16 "completed" (Some "success") "X"] None)
  else None.

Definition khiaw_assets : Profile :=
  asset_profile "root@khiaw.lichess.ovh" "/home/lichess-deploy"
                "echo Reload assets on https://lichess.dev/dev/cli".

(** The artifact listing of run 12 served with status 500. *)
Definition artifact_session_500 : Session := fun url =>
  match artifact_session url with
  | Some res =>
      Some {| status_code := 500; text := "Internal Server Error";
              json := json res; links_next := links_next res |}
  | None => None
  end.

(** A history with a merge: [G] has the parents [X] and [Y]. *)
Definition commit_G : Commit := mkCommit "G" tree_same [commit_X; commit_Y].

(** ** [deploy_script]

    The shell commands sent to the host.  [quote] stands for [shlex.quote],
    [authorization] for the [Authorization] header of the session. *)

Definition ARTIFACT_DIR : string := "/home/lichess-artifacts".

Definition dquote : string := String (Ascii.ascii_of_nat 34) EmptyString.

Definition artifact_unzipped (profile : Profile) (r : CachedRun) : string :=
  ARTIFACT_DIR +:+ "/" +:+ artifact_name profile +:+ "-"
    +:+ pretty (run_id (run r)).

Definition artifact_zip (profile : Profile) (r : CachedRun) : string :=
  artifact_unzipped profile r +:+ ".zip".

Definition deploy_script (quote : string -> string) (profile : Profile)
    (authorization : string) (r : CachedRun) (url : string) : list string :=
  let header := "Authorization: " +:+ authorization in
  let deploy_dir := deploy_dir profile in
  let artifact_unzipped := artifact_unzipped profile r in
  let artifact_zip := artifact_zip profile r in
  [ "echo \# Downloading ...";
    "mkdir -p " +:+ ARTIFACT_DIR;
    "mkdir -p " +:+ deploy_dir +:+ "/application.home_IS_UNDEFINED/logs";
    "[ -f " +:+ artifact_zip +:+ " ] || wget --header=" +:+ quote header
      +:+ " --no-clobber -O " +:+ artifact_zip +:+ " " +:+ quote url;
    "echo";
    "echo \# Unpacking ...";
    "unzip -q -o " +:+ artifact_zip +:+ " -d " +:+ artifact_unzipped;
    "mkdir -p " +:+ artifact_unzipped +:+ "/d";
    "tar -xf " +:+ artifact_unzipped +:+ "/*.tar.xz -C "
      +:+ artifact_unzipped +:+ "/d";
    "cat " +:+ artifact_unzipped +:+ "/d/commit.txt";
    "chown -R lichess:lichess " +:+ ARTIFACT_DIR;
    "echo";
    "echo \# Installing ..." ]
  ++ map (fun symlink =>
            "echo " +:+ dquote +:+ artifact_unzipped +:+ "/d/" +:+ symlink
              +:+ " -> " +:+ deploy_dir +:+ "/" +:+ symlink +:+ dquote
              +:+ ";ln -f --no-target-directory -s " +:+ artifact_unzipped
              +:+ "/d/" +:+ symlink +:+ " " +:+ deploy_dir +:+ "/" +:+ symlink)
         (symlinks profile)
  ++ [ "chown -R lichess:lichess " +:+ deploy_dir;
       "chmod -f +x " +:+ deploy_dir +:+ "/bin/lila || true";
       "echo " +:+ dquote +:+ "SSH: " +:+ ssh profile +:+ dquote;
       "/bin/bash -c " +:+ dquote +:+ "read -n 1 -p 'PRESS ENTER TO RUN: "
         +:+ post profile +:+ ".'" +:+ dquote;
       post profile;
       "echo";
       "echo \# Done." ].

(** * Properties *)

Section CommitInduction.
Variable P : Commit -> Prop.
Hypothesis step : forall h t ps, Forall P ps -> P (mkCommit h t ps).

Fixpoint Commit_parents_ind (c : Commit) : P c :=
  match c with
  | mkCommit h t ps =>
      step h t ps
        ((fix all (l : list Commit) : Forall P l :=
            match l with
            | [] => @List.Forall_nil _ P
            | p :: l' => @List.Forall_cons _ P p l' (Commit_parents_ind p) (all l')
            end) ps)
  end.
End CommitInduction.

Lemma find_commits_eq c files wanted :
  find_commits c files wanted =
  if keeps files wanted c
  then hexsha c :: (parents c ≫= fun p => find_commits p files wanted)
  else [].
Proof.
  destruct c as [h t ps]; unfold keeps; simpl.
  by destruct (hash_files t files).
Qed.

Lemma find_commits_calls_eq c files wanted :
  find_commits_calls c files wanted =
  hexsha c ::
  if keeps files wanted c
  then parents c ≫= fun p => find_commits_calls p files wanted
  else [].
Proof.
  destruct c as [h t ps]; unfold keeps; simpl.
  by destruct (hash_files t files).
Qed.

Lemma keeps_true files wanted c :
  keeps files wanted c = true <-> hash_files (tree c) files = Some wanted.
Proof.
  unfold keeps. destruct (hash_files (tree c) files) as [t|].
  - rewrite bool_decide_eq_true. split; congruence.
  - split; discriminate.
Qed.

Lemma fails_match_keeps files wanted c :
  fails_match files wanted c <-> keeps files wanted c = false.
Proof.
  unfold fails_match, keeps, hash_files. split.
  - intros [(path & Hin & Hno) | (t & Ht & Hne)].
    + assert (mapM (fun p => tree c !! p) files = None) as ->; [|done].
      apply mapM_None, Exists_exists. eauto.
    + rewrite Ht. by apply bool_decide_eq_false.
  - destruct (mapM (fun p => tree c !! p) files) as [t|] eqn:E.
    + intros Hne%bool_decide_eq_false. right. eauto.
    + intros _. left. apply mapM_None, Exists_exists in E. exact E.
Qed.

Lemma find_commits_chain head files wanted h :
  h ∈ find_commits head files wanted <->
  exists c, kept_chain files wanted head c /\ hexsha c = h.
Proof.
  revert h. induction head as [hx t ps IH] using Commit_parents_ind.
  intros h. rewrite find_commits_eq.
  destruct (keeps files wanted (mkCommit hx t ps)) eqn:K; simpl.
  - rewrite elem_of_cons, list_elem_of_bind. split.
    + intros [-> | (p & Hh & Hp)].
      * exists (mkCommit hx t ps). split; [by constructor | done].
      * rewrite Forall_forall in IH.
        apply (IH p Hp) in Hh as (c & Hc & <-).
        exists c. split; [|done]. by eapply kept_parent.
    + intros (c & Hc & <-). inversion Hc as [c' K' | c' p d K' Hp Hpd]; subst.
      * by left.
      * right. exists p. split; [|done].
        rewrite Forall_forall in IH. apply (IH p Hp). eauto.
  - rewrite elem_of_nil. split; [done|].
    intros (c & Hc & _). inversion Hc; subst; simpl in *; congruence.
Qed.

Lemma find_commits_calls_chain head files wanted h :
  h ∈ find_commits_calls head files wanted <->
  exists c, entered files wanted head c /\ hexsha c = h.
Proof.
  revert h. induction head as [hx t ps IH] using Commit_parents_ind.
  intros h. rewrite find_commits_calls_eq, elem_of_cons. split.
  - intros [-> | Hh].
    + exists (mkCommit hx t ps). split; [constructor | done].
    + destruct (keeps files wanted (mkCommit hx t ps)) eqn:K;
        [|by apply elem_of_nil in Hh].
      apply list_elem_of_bind in Hh as (p & Hh & Hp).
      rewrite Forall_forall in IH.
      apply (IH p Hp) in Hh as (c & Hc & <-).
      exists c. split; [|done]. by eapply entered_parent.
  - intros (c & Hc & <-). inversion Hc as [c' | c' p d K' Hp Hpd]; subst.
    + by left.
    + right. rewrite K'. apply list_elem_of_bind. exists p. split; [|done].
      rewrite Forall_forall in IH. apply (IH p Hp). eauto.
Qed.

(** C1, as the code has it: a commit id is in the matched set exactly when a
    chain of parent links leads from the head to a commit with that id and
    every commit on the chain, from the head to that commit, has all tracked
    paths and the wanted tuple.  In a linear history whose head [X] matches
    and whose parent [Z] differs, the matched set is [X] alone: [Z] and
    everything behind it are left out. *)
Theorem find_commits_matched_set :
  (forall head files wanted h,
      h ∈ (list_to_set (find_commits head files wanted) : gset string) <->
      exists c, kept_chain files wanted head c /\ hexsha c = h) /\
  (forall head files wanted c,
      kept_chain files wanted head c ->
      reachable head c /\ hash_files (tree c) files = Some wanted) /\
  (forall X Z files wanted,
      parents X = [Z] ->
      hash_files (tree X) files = Some wanted ->
      fails_match files wanted Z ->
      (list_to_set (find_commits X files wanted) : gset string)
      = {[ hexsha X ]}).
Proof.
  split; [|split].
  - intros. rewrite elem_of_list_to_set. apply find_commits_chain.
  - intros head files wanted c H. induction H as [c K | c p d K Hp _ [IH1 IH2]].
    + split; [constructor | by apply keeps_true].
    + split; [by eapply reach_parent | done].
  - intros X Z files wanted HP HX HZ.
    apply keeps_true in HX. apply fails_match_keeps in HZ.
    rewrite find_commits_eq, HX, HP. simpl.
    rewrite find_commits_eq, HZ. simpl.
    apply (right_id_L ∅ (∪)).
Qed.

Lemma find_commits_matched_set_witness :
  (list_to_set (find_commits commit_X app_conf ["a1"; "c1"]) : gset string)
  = {[ "X" ]}.
Proof.
  apply (proj2 (proj2 find_commits_matched_set) commit_X commit_Z).
  - reflexivity.
  - reflexivity.
  - right. exists ["a1"; "c2"]. split; [reflexivity | discriminate].
Defined.

(** C1 as stated fails: [Y] is reachable from the head [X], has every
    tracked path and the wanted tuple, and is not in the matched set,
    because the traversal stops at [Z]. *)
Lemma find_commits_skips_deeper_match :
  reachable commit_X commit_Y /\
  hash_files (tree commit_Y) app_conf = hash_files (tree commit_X) app_conf /\
  hash_files (tree commit_Y) app_conf = Some ["a1"; "c1"] /\
  hexsha commit_Y ∉
    (list_to_set (find_commits commit_X app_conf ["a1"; "c1"]) : gset string).
Proof.
  split; [|split; [|split]].
  - eapply reach_parent; [by left|].
    eapply reach_parent; [by left|]. constructor.
  - reflexivity.
  - reflexivity.
  - rewrite elem_of_list_to_set.
    change (find_commits commit_X app_conf ["a1"; "c1"]) with ["X"].
    by intros ?%list_elem_of_singleton.
Qed.

(** C2: a visited commit that fails the guard (a tracked path is absent, or
    the tuple differs) is not yielded and the call on it enters no parent;
    and every commit the traversal enters is reached by a chain of parent
    links on which all earlier commits passed the guard. *)
Theorem find_commits_prunes :
  (forall commit files wanted,
      fails_match files wanted commit ->
      find_commits commit files wanted = [] /\
      find_commits_calls commit files wanted = [hexsha commit]) /\
  (forall head files wanted h,
      h ∈ find_commits_calls head files wanted ->
      exists c, entered files wanted head c /\ hexsha c = h).
Proof.
  split.
  - intros commit files wanted K%fails_match_keeps.
    by rewrite find_commits_eq, find_commits_calls_eq, K.
  - intros head files wanted h. apply find_commits_calls_chain.
Qed.

Lemma find_commits_prunes_witness :
  find_commits commit_M app_conf ["a1"; "c1"] = [] /\
  find_commits_calls commit_M app_conf ["a1"; "c1"] = ["M"].
Proof.
  apply (proj1 find_commits_prunes commit_M).
  left. exists "conf". split; [|reflexivity].
  apply elem_of_cons. right. apply elem_of_cons. by left.
Defined.

(** The crafted history of the pruning property: the deeper ancestor [Y]
    would match, the intermediate [M] lacks [conf], and [Y] is never
    entered. *)
Example pruned_history_calls :
  find_commits_calls commit_H app_conf ["a1"; "c1"] = ["H"; "M"] /\
  find_commits commit_H app_conf ["a1"; "c1"] = ["H"] /\
  find_commits commit_Y app_conf ["a1"; "c1"] = ["Y"].
Proof. by vm_compute. Qed.

(** ** Run selection *)

Lemma scan_run_step profile wanted out found r :
  scan_run profile wanted (out, found) r =
  if relevant profile wanted r then
    (out ++ [run_line r],
     match found with
     | Some f => Some f
     | None => if successful r then Some r else None
     end)
  else (out, found).
Proof.
  unfold scan_run, relevant, successful, run_line.
  repeat case_bool_decide; simpl; try done; try tauto.
  all: by destruct found.
Qed.

Lemma scan_run_fold profile wanted l out found :
  fold_left (scan_run profile wanted) l (out, found) =
  (out ++ map run_line (List.filter (relevant profile wanted) l),
   match found with
   | Some r => Some r
   | None =>
       List.head (List.filter successful
                              (List.filter (relevant profile wanted) l))
   end).
Proof.
  revert out found. induction l as [|r l IH]; intros out found.
  - simpl. rewrite app_nil_r. by destruct found.
  - cbn [fold_left List.filter]. rewrite scan_run_step.
    destruct (relevant profile wanted r); [|apply IH].
    rewrite IH. cbn [List.filter map]. rewrite <- app_assoc. simpl.
    destruct found; [done|]. by destruct (successful r).
Qed.

Lemma find_workflow_run_eq profile runs wanted :
  find_workflow_run profile runs wanted =
  let considered := List.filter (relevant profile wanted) (dict_values runs) in
  match List.filter successful considered with
  | r :: _ =>
      ("Matching workflow runs:" :: map run_line considered ++
         ["Selected " +:+ run_html_url (run r) +:+ "."],
       Return r)
  | [] => ("Matching workflow runs:" :: map run_line considered, Raise no_run)
  end.
Proof.
  unfold find_workflow_run. rewrite scan_run_fold. simpl.
  by destruct (List.filter successful _).
Qed.

(** C3: the locator scans the cache in iteration order, looks only at runs
    whose head commit is wanted and whose feed tag is the profile's, prints a
    line for each of them without stopping, and returns the first that is
    completed and successful; without one it raises the no-matching-run
    error. *)
Theorem find_workflow_run_selects profile runs wanted :
  let considered := List.filter (relevant profile wanted) (dict_values runs) in
  match List.filter successful considered with
  | r :: _ =>
      find_workflow_run profile runs wanted =
      ("Matching workflow runs:" :: map run_line considered ++
         ["Selected " +:+ run_html_url (run r) +:+ "."],
       Return r)
  | [] =>
      find_workflow_run profile runs wanted =
      ("Matching workflow runs:" :: map run_line considered, Raise no_run)
  end.
Proof.
  rewrite find_workflow_run_eq. simpl.
  by destruct (List.filter successful _).
Qed.

Example find_workflow_run_sample :
  find_workflow_run khiaw_server sample_cache {[ "X" ]} =
  (["Matching workflow runs:";
    "- https://github.com/ornicar/lila/actions/runs/14 PENDING.";
    "- https://github.com/ornicar/lila/actions/runs/13 FAILED.";
    "- https://github.com/ornicar/lila/actions/runs/12 succeeded.";
    "- https://github.com/ornicar/lila/actions/runs/11 succeeded.";
    "Selected https://github.com/ornicar/lila/actions/runs/12."],
   Return (cached SERVER_BUILD_URL run_good)).
Proof. by vm_compute. Qed.

(** C9: what the locator prints and returns depends only on the relevant
    runs, in their order: two caches with the same relevant runs give the
    same answer, and an entry whose head commit is not wanted or whose feed
    tag differs can be added or removed anywhere without changing it. *)
Theorem find_workflow_run_noninterference profile wanted :
  (forall runs1 runs2,
      List.filter (relevant profile wanted) (dict_values runs1) =
      List.filter (relevant profile wanted) (dict_values runs2) ->
      find_workflow_run profile runs1 wanted =
      find_workflow_run profile runs2 wanted) /\
  (forall runs1 runs2 k r,
      run_head_commit_id (run r) ∉ wanted \/
      _workflow_url r <> workflow_url profile ->
      find_workflow_run profile (runs1 ++ (k, r) :: runs2) wanted =
      find_workflow_run profile (runs1 ++ runs2) wanted).
Proof.
  assert (forall runs1 runs2,
      List.filter (relevant profile wanted) (dict_values runs1) =
      List.filter (relevant profile wanted) (dict_values runs2) ->
      find_workflow_run profile runs1 wanted =
      find_workflow_run profile runs2 wanted) as Hsame.
  { intros runs1 runs2 E. rewrite !find_workflow_run_eq. simpl. by rewrite E. }
  split; [exact Hsame|].
  intros runs1 runs2 k r Hirr. apply Hsame.
  unfold dict_values. rewrite !map_app, !List.filter_app. simpl.
  assert (relevant profile wanted r = false) as ->; [|done].
  unfold relevant. apply andb_false_iff.
  destruct Hirr as [H|H]; [left|right]; by apply bool_decide_eq_false.
Qed.

Lemma find_workflow_run_noninterference_witness :
  find_workflow_run khiaw_server
    ((15%Z, cached SERVER_BUILD_URL run_elsewhere) :: sample_cache) {[ "X" ]} =
  find_workflow_run khiaw_server sample_cache {[ "X" ]} /\
  find_workflow_run khiaw_server
    ([(14%Z, cached SERVER_BUILD_URL run_pending)] ++
     (12%Z, cached ASSETS_BUILD_URL run_good) ::
     [(11%Z, cached SERVER_BUILD_URL run_late)]) {[ "X" ]} =
  find_workflow_run khiaw_server
    ([(14%Z, cached SERVER_BUILD_URL run_pending)] ++
     [(11%Z, cached SERVER_BUILD_URL run_late)]) {[ "X" ]}.
Proof.
  split.
  - apply (proj1 (find_workflow_run_noninterference khiaw_server {[ "X" ]})).
    reflexivity.
  - apply (proj2 (find_workflow_run_noninterference khiaw_server {[ "X" ]})).
    right. discriminate.
Defined.

(** ** Artifacts *)

Lemma artifact_scan_find artifacts name :
  artifact_scan artifacts name =
  match List.find (fun a => bool_decide (art_name a = name)) artifacts with
  | Some a =>
      (if art_expired a then ["Artifact expired."] else [],
       Return (art_archive_download_url a))
  | None => ([], Raise (DeployError ("Did not find artifact " +:+ name +:+ ".")))
  end.
Proof.
  induction artifacts as [|a l IH]; simpl; [done|].
  by destruct (bool_decide (art_name a = name)).
Qed.

(** C7: on the artifact listing of the selected run, the resolver returns the
    download url of the first entry with the configured name, printing the
    warning when that entry is expired and still returning the url; with no
    such entry it raises the missing-artifact error. *)
Theorem artifact_url_resolves session r name res j artifacts :
  session (run_artifacts_url (run r)) = Some res ->
  json res = Some j ->
  json_artifacts j = Some artifacts ->
  match List.find (fun a => bool_decide (art_name a = name)) artifacts with
  | Some a =>
      artifact_url session r name =
      (if art_expired a then ["Artifact expired."] else [],
       Return (art_archive_download_url a))
  | None =>
      artifact_url session r name =
      ([], Raise (DeployError ("Did not find artifact " +:+ name +:+ ".")))
  end.
Proof.
  intros Hs Hj Ha. unfold artifact_url. rewrite Hs, Hj, Ha, artifact_scan_find.
  by destruct (List.find _ artifacts).
Qed.

Lemma artifact_url_resolves_witness :
  artifact_url artifact_session (cached SERVER_BUILD_URL run_good) "lila-server"
  = (["Artifact expired."], Return "https://api.github.com/artifacts/2/zip") /\
  artifact_url artifact_session (cached SERVER_BUILD_URL run_good) "lila-docs"
  = ([], Raise (DeployError "Did not find artifact lila-docs.")).
Proof.
  split.
  - exact (artifact_url_resolves artifact_session
             (cached SERVER_BUILD_URL run_good) "lila-server" _ _ _
             eq_refl eq_refl eq_refl).
  - exact (artifact_url_resolves artifact_session
             (cached SERVER_BUILD_URL run_good) "lila-docs" _ _ _
             eq_refl eq_refl eq_refl).
Defined.

(** ** The run cache *)

Section Dict.
Context {V : Type}.
Implicit Types (d : dict V) (k : Z) (v : V).

Lemma dict_get_set_eq k v d : dict_get k (dict_set k v d) = Some v.
Proof.
  induction d as [|[k' v'] d IH]; simpl.
  - by rewrite bool_decide_eq_true_2.
  - case_bool_decide; simpl.
    + by rewrite bool_decide_eq_true_2.
    + by rewrite bool_decide_eq_false_2.
Qed.

Lemma dict_get_set_ne k k' v d :
  k <> k' -> dict_get k' (dict_set k v d) = dict_get k' d.
Proof.
  intros Hne. induction d as [|[k0 v0] d IH]; simpl.
  - by rewrite bool_decide_eq_false_2.
  - case_bool_decide; simpl.
    + subst k0. by rewrite !bool_decide_eq_false_2.
    + by rewrite IH.
Qed.

Lemma dict_set_id k v d : dict_get k d = Some v -> dict_set k v d = d.
Proof.
  induction d as [|[k0 v0] d IH]; simpl; [done|].
  case_bool_decide.
  - intros [= ->]. by subst.
  - intros H'. by rewrite IH.
Qed.

Lemma dict_get_set_is_Some k k' v d :
  is_Some (dict_get k' d) -> is_Some (dict_get k' (dict_set k v d)).
Proof.
  destruct (decide (k = k')) as [->|Hne].
  - rewrite dict_get_set_eq. eauto.
  - by rewrite dict_get_set_ne.
Qed.
End Dict.

Lemma ids_consistent_spec rs :
  ids_consistent rs = true <->
  forall r r', r ∈ rs -> r' ∈ rs -> run_id r = run_id r' -> r = r'.
Proof.
  unfold ids_consistent. rewrite forallb_forall. split.
  - intros H r r' Hr Hr'. apply list_elem_of_In in Hr, Hr'.
    specialize (H r Hr). rewrite forallb_forall in H.
    specialize (H r' Hr'). by apply bool_decide_eq_true in H.
  - intros H r Hr. apply forallb_forall. intros r' Hr'.
    apply bool_decide_eq_true. apply H; by apply list_elem_of_In.
Qed.

Lemma completed_stay_spec d rs :
  completed_stay d rs = true <->
  forall r, r ∈ rs -> known_completed d (run_id r) = true ->
            run_status r = "completed".
Proof.
  unfold completed_stay. rewrite forallb_forall. split.
  - intros H r Hr. apply list_elem_of_In in Hr.
    specialize (H r Hr). by apply bool_decide_eq_true in H.
  - intros H r Hr. apply bool_decide_eq_true. apply H.
    by apply list_elem_of_In.
Qed.

Section Merge.
Variable wurl : string.
#[local] Abbreviation merge := (merge_run wurl).
#[local] Abbreviation entry r := {| run := r; _workflow_url := wurl |}.

Lemma known_completed_set d k r k' :
  known_completed (dict_set k (entry r) d) k' =
  if bool_decide (k = k') then bool_decide (run_status r = "completed")
  else known_completed d k'.
Proof.
  unfold known_completed. case_bool_decide.
  - subst. by rewrite dict_get_set_eq.
  - by rewrite dict_get_set_ne.
Qed.

(** Keys are never removed by a merge. *)
Lemma fold_merge_keeps rs st k :
  is_Some (dict_get k (data st)) ->
  is_Some (dict_get k (data (fold_left merge rs st))).
Proof.
  revert st. induction rs as [|r rs IH]; intros st H; simpl; [done|].
  apply IH. simpl. by apply dict_get_set_is_Some.
Qed.

(** Once set, [synced] stays set. *)
Lemma fold_merge_synced rs st :
  synced st = true -> synced (fold_left merge rs st) = true.
Proof.
  revert st. induction rs as [|r rs IH]; intros st H; simpl; [done|].
  apply IH. simpl. rewrite H. by destruct (known_completed _ _).
Qed.

(** Every merged run leaves an entry under its id: the last merged record
    with that id. *)
Lemma fold_merge_fetched rs st r :
  r ∈ rs ->
  exists r', r' ∈ rs /\ run_id r' = run_id r /\
             dict_get (run_id r) (data (fold_left merge rs st))
             = Some (entry r').
Proof.
  induction rs as [|x rs IH] using rev_ind; [by intros ?%elem_of_nil|].
  intros Hr. rewrite fold_left_app. simpl.
  destruct (decide (run_id x = run_id r)) as [E|E].
  - exists x. rewrite elem_of_app, list_elem_of_singleton.
    split; [by right|]. split; [done|]. rewrite <- E. apply dict_get_set_eq.
  - apply elem_of_app in Hr as [Hr|Hr%list_elem_of_singleton]; [|by subst].
    destruct (IH Hr) as (r' & Hr' & Hid & Hget).
    exists r'. rewrite elem_of_app. split; [by left|]. split; [done|].
    by rewrite dict_get_set_ne.
Qed.

(** With one record per id, every merged run is stored as it was fetched. *)
Lemma fold_merge_lookup rs st r :
  ids_consistent rs = true -> r ∈ rs ->
  dict_get (run_id r) (data (fold_left merge rs st)) = Some (entry r).
Proof.
  intros Hc Hr. destruct (fold_merge_fetched rs st r Hr) as (r' & Hr' & Hid & ->).
  rewrite ids_consistent_spec in Hc. by rewrite (Hc r' r Hr' Hr Hid).
Qed.

(** Merging runs that the map already stores as fetched changes nothing in
    the map, and sets [synced] exactly when one of them is completed. *)
Lemma fold_merge_same rs st :
  (forall r, r ∈ rs -> dict_get (run_id r) (data st) = Some (entry r)) ->
  data (fold_left merge rs st) = data st /\
  synced (fold_left merge rs st) =
  synced st
  || existsb (fun r => bool_decide (run_status r = "completed")) rs.
Proof.
  revert st. induction rs as [|r rs IH]; intros st H; simpl.
  - by rewrite orb_false_r.
  - assert (dict_get (run_id r) (data st) = Some (entry r)) as Hr
        by (apply H; by left).
    destruct (IH (merge st r)) as [Hd Hs].
    { intros r' Hr'. simpl. rewrite (dict_set_id _ _ _ Hr).
      apply H. by right. }
    rewrite Hd, Hs. simpl. rewrite (dict_set_id _ _ _ Hr).
    split; [done|]. unfold known_completed. rewrite Hr. simpl.
    destruct (bool_decide (run_status r = "completed")), (synced st); done.
Qed.
Lemma ids_consistent_app_r rs1 rs2 :
  ids_consistent (rs1 ++ rs2) = true -> ids_consistent rs2 = true.
Proof.
  rewrite !ids_consistent_spec. intros H r r' Hr Hr'.
  apply H; apply elem_of_app; by right.
Qed.

(** While the records of a page agree with what was fetched before and
    with what the map held as completed, a merge keeps this so for the
    runs still to come, and sets [synced] only on a completed run. *)
Lemma fold_merge_stay runs rest st :
  ids_consistent (runs ++ rest) = true ->
  completed_stay (data st) (runs ++ rest) = true ->
  completed_stay (data (fold_left merge runs st)) rest = true /\
  (synced (fold_left merge runs st) = true ->
   synced st = true \/
   existsb (fun r => bool_decide (run_status r = "completed")) runs = true).
Proof.
  revert st. induction runs as [|r runs IH]; intros st Hc Hs; simpl.
  - split; [done|]. by left.
  - assert (completed_stay (data (merge st r)) (runs ++ rest) = true) as Hs1.
    { apply completed_stay_spec. intros e He. simpl.
      rewrite known_completed_set. case_bool_decide as Hid.
      - rewrite ids_consistent_spec in Hc.
        assert (r = e) as <-.
        { apply Hc; [by left | by right | done]. }
        by intros ?%bool_decide_eq_true.
      - rewrite completed_stay_spec in Hs. apply Hs. by right. }
    destruct (IH (merge st r)) as [IH1 IH2]; [|done|].
    { by apply (ids_consistent_app_r [r]). }
    split; [done|]. intros Hsy. destruct (IH2 Hsy) as [H1|H1].
    + simpl in H1.
      destruct (known_completed (data st) (run_id r)) eqn:Hk; [|by left].
      right. rewrite completed_stay_spec in Hs.
      rewrite (bool_decide_eq_true_2 (run_status r = "completed")); [done|].
      apply Hs; [by left | done].
    + right. rewrite H1. apply orb_true_r.
Qed.

(** Until [synced] is set, every run that [d0] held as completed is still
    held as completed; and a page with such a run sets [synced]. *)
Lemma fold_merge_known d0 runs st :
  (synced st = false ->
   forall k, known_completed d0 k = true ->
             known_completed (data st) k = true) ->
  (synced (fold_left merge runs st) = false ->
   forall k, known_completed d0 k = true ->
             known_completed (data (fold_left merge runs st)) k = true) /\
  (forall r, r ∈ runs -> known_completed d0 (run_id r) = true ->
             synced (fold_left merge runs st) = true).
Proof.
  revert st. induction runs as [|r0 runs IH]; intros st Hinv; simpl.
  - split; [done|]. by intros r ?%elem_of_nil.
  - destruct (IH (merge st r0)) as [IH1 IH2].
    { simpl. intros Hsy k Hk.
      destruct (known_completed (data st) (run_id r0)) eqn:Hk0; [done|].
      rewrite known_completed_set. case_bool_decide as Hid.
      - subst k. rewrite (Hinv Hsy _ Hk) in Hk0. done.
      - by apply Hinv. }
    split; [done|]. intros r [->|Hr]%elem_of_cons Hk; [|by apply (IH2 r)].
    apply fold_merge_synced. simpl.
    destruct (synced st) eqn:Hsy.
    + by destruct (known_completed (data st) (run_id r0)).
    + by rewrite (Hinv eq_refl _ Hk).
Qed.
End Merge.

(** ** The fetch loop *)

Section Loop.
Variable session : Session.
Variable wurl : string.
#[local] Abbreviation merge := (merge_run wurl).
#[local] Abbreviation loop := (fetch_loop).

Lemma fetch_loop_synced fuel url st :
  synced st = true ->
  fetch_loop fuel session wurl url st = Some (loop_stop [] [] st None).
Proof. intros H. destruct fuel; simpl; by rewrite H. Qed.

(** One turn of the loop, by the outcome of the fetch. *)
Lemma fetch_loop_turn fuel url st :
  synced st = false ->
  fetch_loop (S fuel) session wurl url st =
  match fetch session url with
  | FetchRaised e => Some (loop_stop [fetching] [url] st (Some e))
  | FetchRefused res =>
      Some (loop_stop
              [fetching;
               "Unexpected response: " +:+ pretty (status_code res)
                 +:+ " " +:+ text res]
              [url] st None)
  | FetchPage runs next =>
      let st' := fold_left merge runs st in
      match next with
      | None => Some (loop_stop [fetching] [url] st' None)
      | Some url' =>
          loop_after url <$> fetch_loop fuel session wurl url' st'
      end
  end.
Proof.
  intros H. unfold fetch. simpl. rewrite H.
  destruct (session url) as [res|]; [|done].
  case_bool_decide; [done|].
  destruct (json res) as [j|]; [|done].
  by destruct (json_workflow_runs j).
Qed.

Lemma fetch_loop_out_of_fuel url st :
  synced st = false -> fetch_loop 0 session wurl url st = None.
Proof. intros H. simpl. by rewrite H. Qed.
Lemma page_runs_page url runs next :
  fetch session url = FetchPage runs next -> page_runs session url = runs.
Proof. unfold page_runs. by intros ->. Qed.

Lemma fetched_runs_cons url urls :
  fetched_runs session (url :: urls) =
  page_runs session url ++ fetched_runs session urls.
Proof. done. Qed.

Lemma fetch_refused url res :
  session url = Some res -> status_code res <> 200%Z ->
  fetch session url = FetchRefused res.
Proof. intros Hs Hc. unfold fetch. by rewrite Hs, bool_decide_eq_true_2. Qed.

Ltac loop_cases H st url :=
  let Hsy := fresh "Hsy" in
  let Hf := fresh "Hf" in
  destruct (synced st) eqn:Hsy;
  [ rewrite fetch_loop_synced in H by done; injection H as <-
  | first
      [ by rewrite fetch_loop_out_of_fuel in H
      | rewrite fetch_loop_turn in H by done;
        destruct (fetch session url) as [?e|?res|?runs [?url'|]] eqn:Hf;
        cbn zeta in H ] ].

(** The map at the end of the loop is the map at its start with the runs
    of all fetched pages merged in, in order. *)
Lemma fetch_loop_state fuel url st L :
  fetch_loop fuel session wurl url st = Some L ->
  loop_state L =
  fold_left merge (fetched_runs session (loop_fetched L)) st.
Proof.
  revert url st L. induction fuel as [|fuel IH]; intros url st L H;
    loop_cases H st url; try done.
  - injection H as <-. simpl. rewrite fetched_runs_cons.
    unfold page_runs. by rewrite Hf.
  - injection H as <-. simpl. rewrite fetched_runs_cons.
    unfold page_runs. by rewrite Hf.
  - apply fmap_Some in H as (L0 & H0 & ->). simpl.
    rewrite fetched_runs_cons, fold_left_app, (page_runs_page _ _ _ Hf).
    by apply IH in H0.
  - injection H as <-. simpl.
    rewrite fetched_runs_cons, (page_runs_page _ _ _ Hf).
    unfold fetched_runs. simpl. by rewrite app_nil_r.
Qed.

(** A fetch that is refused is the last one, and ends the loop without
    an exception. *)
Lemma fetch_loop_refused fuel url st L i u res :
  fetch_loop fuel session wurl url st = Some L ->
  loop_fetched L !! i = Some u ->
  fetch session u = FetchRefused res ->
  length (loop_fetched L) = S i /\ loop_raised L = None.
Proof.
  revert url st L i. induction fuel as [|fuel IH]; intros url st L i H Hi Hu;
    loop_cases H st url; try done.
  - injection H as <-. simpl in *. destruct i; [|done].
    injection Hi as <-. congruence.
  - injection H as <-. simpl in *. by destruct i.
  - apply fmap_Some in H as (L0 & H0 & ->). simpl in *.
    destruct i as [|i]; [injection Hi as <-; congruence|].
    destruct (IH _ _ _ _ H0 Hi Hu) as [-> ->]. done.
  - injection H as <-. simpl in *. destruct i; [|done].
    injection Hi as <-. congruence.
Qed.

(** The loop fetches nothing after a page with a run that the map held as
    completed when the loop began. *)
Lemma fetch_loop_known d0 fuel url st L i u r :
  fetch_loop fuel session wurl url st = Some L ->
  (synced st = false ->
   forall k, known_completed d0 k = true ->
             known_completed (data st) k = true) ->
  loop_fetched L !! i = Some u ->
  r ∈ page_runs session u ->
  known_completed d0 (run_id r) = true ->
  length (loop_fetched L) = S i.
Proof.
  revert url st L i.
  induction fuel as [|fuel IH]; intros url st L i H Hinv Hi Hr Hk;
    loop_cases H st url; try done.
  - injection H as <-. simpl in *. by destruct i.
  - injection H as <-. simpl in *. by destruct i.
  - apply fmap_Some in H as (L0 & H0 & ->). simpl in *.
    destruct (fold_merge_known wurl d0 runs st) as [Hinv' Hsync];
      [intros _; by apply Hinv|].
    destruct i as [|i].
    + injection Hi as <-. rewrite (page_runs_page _ _ _ Hf) in Hr.
      rewrite fetch_loop_synced in H0 by eauto.
      by injection H0 as <-.
    + f_equal. eapply IH; eauto.
  - injection H as <-. simpl in *. by destruct i.
Qed.

(** A second pass over a feed whose records are all in the map already:
    the map does not change and no new page is fetched. *)
Lemma fetch_loop_again fuel url st L d n :
  fetch_loop fuel session wurl url st = Some L ->
  synced st = false ->
  ids_consistent (fetched_runs session (loop_fetched L)) = true ->
  completed_stay (data st) (fetched_runs session (loop_fetched L)) = true ->
  (forall r, r ∈ fetched_runs session (loop_fetched L) ->
             dict_get (run_id r) d = Some {| run := r; _workflow_url := wurl |}) ->
  exists L',
    fetch_loop fuel session wurl url {| data := d; new := n; synced := false |}
    = Some L' /\
    data (loop_state L') = d /\
    loop_fetched L' `prefix_of` loop_fetched L.
Proof.
  revert url st L n.
  induction fuel as [|fuel IH]; intros url st L n H Hs Hc Hst Hd;
    loop_cases H st url; try done; clear Hs;
    rewrite fetch_loop_turn by done; rewrite Hf; cbn zeta.
  - injection H as <-. eexists. split; [done|]. done.
  - injection H as <-. eexists. split; [done|]. done.
  - apply fmap_Some in H as (L0 & H0 & ->). simpl in Hc, Hst, Hd.
    rewrite fetched_runs_cons, (page_runs_page _ _ _ Hf) in Hc, Hst, Hd.
    destruct (fold_merge_same wurl runs
                {| data := d; new := n; synced := false |}) as [Hd2 Hs2].
    { intros r Hr. apply Hd, elem_of_app. by left. }
    destruct (fold_merge_stay wurl runs _ st Hc Hst) as [Hst' Hsy'].
    simpl in Hd2, Hs2.
    destruct (fold_left merge runs {| data := d; new := n; synced := false |})
      as [d2 n2 s2] eqn:E2. simpl in Hd2, Hs2. subst d2.
    destruct s2.
    + rewrite fetch_loop_synced by done. eexists. split; [done|].
      split; [done|]. simpl. apply prefix_cons, prefix_nil.
    + destruct (IH url' (fold_left merge runs st) L0 n2 H0) as (L1 & H1 & Hd1 & Hp).
      * destruct (synced (fold_left merge runs st)); [|done].
        destruct (Hsy' eq_refl) as [?|He]; [congruence|].
        rewrite He in Hs2. done.
      * by apply (ids_consistent_app_r runs).
      * done.
      * intros r Hr. apply Hd, elem_of_app. by right.
      * rewrite H1. eexists. split; [done|]. split; [done|].
        simpl. by apply prefix_cons.
  - injection H as <-.
    destruct (fold_merge_same wurl runs
                {| data := d; new := n; synced := false |}) as [Hd2 _].
    { intros r Hr. apply Hd. simpl.
      rewrite fetched_runs_cons, (page_runs_page _ _ _ Hf).
      apply elem_of_app. by left. }
    eexists. split; [done|]. split; [done|]. done.
Qed.

(** A feed that ends within [n] pages is read within [n] turns. *)
Lemma fetch_loop_ends n url st :
  feed_ends session url n = true ->
  is_Some (fetch_loop n session wurl url st).
Proof.
  revert url st. induction n as [|n IH]; intros url st H; [done|].
  destruct (synced st) eqn:Hsy; [rewrite fetch_loop_synced; eauto|].
  rewrite fetch_loop_turn by done. simpl in H.
  destruct (fetch session url) as [e|res|runs [url'|]]; cbn zeta; eauto.
  apply fmap_is_Some. by apply IH.
Qed.
End Loop.

(** ** [workflow_runs] *)

Lemma workflow_runs_inv fuel profile session file o :
  workflow_runs fuel profile session file = Some o ->
  exists L,
    fetch_loop fuel session (workflow_url profile) (workflow_url profile)
               (sync_start (default [] file)) = Some L /\
    sync_fetched o = loop_fetched L /\
    sync_file o = Some (data (loop_state L)) /\
    sync_result o = match loop_raised L with
                    | Some e => Raise e
                    | None => Return (data (loop_state L))
                    end.
Proof.
  unfold workflow_runs, sync_start. destruct file as [d|]; simpl;
    intros (L & HL & [= <-])%bind_Some; exists L; by rewrite HL.
Qed.

Lemma workflow_runs_loop fuel profile session file L :
  fetch_loop fuel session (workflow_url profile) (workflow_url profile)
             (sync_start (default [] file)) = Some L ->
  exists o, workflow_runs fuel profile session file = Some o /\
            sync_fetched o = loop_fetched L /\
            sync_file o = Some (data (loop_state L)) /\
            sync_result o = match loop_raised L with
                            | Some e => Raise e
                            | None => Return (data (loop_state L))
                            end.
Proof.
  unfold workflow_runs, sync_start. destruct file as [d|]; simpl;
    intros ->; simpl; eauto.
Qed.

(** C5: whenever the synchronizer ends, by the end of the loop, by a break
    or by an exception, the cache file holds the merged map: the prior
    entries with the runs of every page fetched so far written over them,
    replacing the old content; a normal return gives that same map.  A feed
    that ends within [n] pages lets the synchronizer end within [n] turns. *)
Theorem workflow_runs_persists :
  (forall fuel profile session file o,
      workflow_runs fuel profile session file = Some o ->
      let prior := default [] file in
      let fetched := fetched_runs session (sync_fetched o) in
      let merged :=
        data (fold_left (merge_run (workflow_url profile)) fetched
                        (sync_start prior)) in
      sync_file o = Some merged /\
      (sync_result o = Return merged \/ exists e, sync_result o = Raise e) /\
      (forall k, is_Some (dict_get k prior) -> is_Some (dict_get k merged)) /\
      (forall r, r ∈ fetched ->
         exists r', r' ∈ fetched /\ run_id r' = run_id r /\
                    dict_get (run_id r) merged =
                    Some {| run := r'; _workflow_url := workflow_url profile |})) /\
  (forall n profile session file,
      feed_ends session (workflow_url profile) n = true ->
      is_Some (workflow_runs n profile session file)).
Proof.
  split.
  - intros fuel profile session file o (L & HL & Hf & Hfile & Hres)%workflow_runs_inv.
    simpl. apply fetch_loop_state in HL. rewrite Hf, <- HL.
    split; [done|]. split; [|split].
    + rewrite Hres. destruct (loop_raised L); eauto.
    + intros k Hk. rewrite HL. by apply fold_merge_keeps.
    + intros r Hr. rewrite HL. by apply fold_merge_fetched.
  - intros n profile session file H.
    destruct (fetch_loop_ends session (workflow_url profile) n _
                (sync_start (default [] file)) H) as [L HL].
    destruct (workflow_runs_loop _ _ _ _ _ HL) as (o & -> & _). eauto.
Qed.

Lemma workflow_runs_persists_witness :
  exists o,
    workflow_runs 5 khiaw_server feed_broken
                  (Some [(11%Z, cached SERVER_BUILD_URL run_late)]) = Some o /\
    sync_result o = Raise ConnectionError /\
    sync_fetched o = [SERVER_BUILD_URL; page2_url] /\
    sync_file o = Some [(11%Z, cached SERVER_BUILD_URL run_late);
                        (14%Z, cached SERVER_BUILD_URL run_pending);
                        (13%Z, cached SERVER_BUILD_URL run_failed)].
Proof.
  eexists. split; [reflexivity|]. split; [reflexivity|].
  split; [reflexivity|].
  exact (proj1 (proj1 workflow_runs_persists 5 khiaw_server feed_broken
                  (Some [(11%Z, cached SERVER_BUILD_URL run_late)]) _ eq_refl)).
Defined.

(** The three ways the loop ends, on sample feeds: the last page, a refused
    fetch, an exception. *)
Example workflow_runs_endings :
  fmap sync_result (workflow_runs 5 khiaw_server feed_two_pages None) =
    Some (Return sample_cache) /\
  fmap sync_file (workflow_runs 5 khiaw_server feed_two_pages None) =
    Some (Some sample_cache) /\
  (sync_result <$> workflow_runs 5 khiaw_server feed_500 (Some sample_cache)) =
    Some (Return sample_cache) /\
  fmap sync_out (workflow_runs 5 khiaw_server feed_500 None) =
    Some ["Created workflow run database."; "Fetching workflow runs ...";
          "Unexpected response: 500 Internal Server Error";
          "Added/updated 0 workflow run(s)."] /\
  fmap sync_result (workflow_runs 5 khiaw_server feed_broken None) =
    Some (Raise ConnectionError).
Proof. by vm_compute. Qed.

Lemma relevant_none profile r : relevant profile ∅ r = false.
Proof. unfold relevant. by rewrite bool_decide_eq_false_2. Qed.

Lemma find_workflow_run_nothing_wanted profile runs :
  find_workflow_run profile runs ∅ = (["Matching workflow runs:"], Raise no_run).
Proof.
  rewrite find_workflow_run_eq. simpl.
  assert (List.filter (relevant profile ∅) (dict_values runs) = []) as ->;
    [|done].
  induction (dict_values runs) as [|r l IH]; [done|].
  simpl. by rewrite relevant_none.
Qed.

(** C6: a fetch answered with a status other than 200 is the last fetch;
    the synchronizer then returns, without raising, the prior entries merged
    with everything fetched before, and has saved that map.  With no prior
    cache and a 500 on the first page it returns the empty map, and the
    deploy then ends with the no-matching-run error. *)
Theorem workflow_runs_soft_degrade :
  (forall fuel profile session file o i u res,
      workflow_runs fuel profile session file = Some o ->
      sync_fetched o !! i = Some u ->
      session u = Some res -> status_code res <> 200%Z ->
      let prior := default [] file in
      let merged :=
        data (fold_left (merge_run (workflow_url profile))
                        (fetched_runs session (take i (sync_fetched o)))
                        (sync_start prior)) in
      length (sync_fetched o) = S i /\
      sync_result o = Return merged /\
      sync_file o = Some merged /\
      (forall k, is_Some (dict_get k prior) -> is_Some (dict_get k merged))) /\
  (forall fuel profile repo commit session res wanted_hash,
      session (workflow_url profile) = Some res ->
      status_code res = 500%Z ->
      common_dir_file repo = None ->
      hash_files (tree commit) (files profile) = Some wanted_hash ->
      (exists o,
          workflow_runs (S fuel) profile session None = Some o /\
          sync_result o = Return [] /\
          sync_fetched o = [workflow_url profile]) /\
      (forall wanted,
          (find_workflow_run profile [] wanted).2 = Raise no_run) /\
      (exists d,
          deploy (S fuel) profile repo commit session = Some d /\
          d_result d = Raise no_run /\ d_file d = Some [])).
Proof.
  split.
  - intros fuel profile session file o i u res
           (L & HL & Hf & Hfile & Hres)%workflow_runs_inv Hi Hu Hc.
    simpl. rewrite Hf in Hi |- *.
    pose proof (fetch_refused session u res Hu Hc) as Hr.
    destruct (fetch_loop_refused _ _ _ _ _ _ _ _ _ HL Hi Hr) as [Hlen Hno].
    apply fetch_loop_state in HL.
    assert (fetched_runs session (loop_fetched L)
            = fetched_runs session (take i (loop_fetched L))) as E.
    { rewrite <- (take_drop i (loop_fetched L)) at 1.
      rewrite (drop_S _ u i Hi), drop_ge by lia.
      unfold fetched_runs. rewrite bind_app. simpl.
      unfold page_runs at 2. rewrite Hr. by rewrite !app_nil_r. }
    rewrite <- E, <- HL. split; [done|]. split; [by rewrite Hres, Hno|].
    split; [done|]. intros k Hk. rewrite HL. by apply fold_merge_keeps.
  - intros fuel profile repo commit session res wanted_hash Hs H500 Hfile Hh.
    assert (status_code res <> 200%Z) as Hc by lia.
    pose proof (fetch_refused session _ res Hs Hc) as Hr.
    assert (workflow_runs (S fuel) profile session None
            = Some {| sync_out :=
                        ["Created workflow run database."; fetching;
                         "Unexpected response: " +:+ pretty (status_code res)
                           +:+ " " +:+ text res;
                         "Added/updated 0 workflow run(s)."];
                      sync_fetched := [workflow_url profile];
                      sync_file := Some [];
                      sync_result := Return [] |}) as Hw.
    { unfold workflow_runs. rewrite fetch_loop_turn by done. by rewrite Hr. }
    split; [eauto|]. split; [done|].
    unfold deploy. rewrite Hh, Hfile, Hw. simpl.
    eexists. split; [reflexivity|]. done.
Qed.

Lemma workflow_runs_soft_degrade_witness :
  (exists o,
      workflow_runs 5 khiaw_server feed_500 (Some sample_cache) = Some o /\
      length (sync_fetched o) = 1 /\
      sync_result o = Return sample_cache /\
      sync_file o = Some sample_cache) /\
  (exists o,
      workflow_runs 1 app_conf_profile feed_500 None = Some o /\
      sync_result o = Return [] /\
      sync_fetched o = [SERVER_BUILD_URL]) /\
  (exists d,
      deploy 1 app_conf_profile sample_repo commit_X feed_500 = Some d /\
      d_result d = Raise no_run /\ d_file d = Some []).
Proof.
  split.
  - eexists. split; [reflexivity|].
    destruct (proj1 workflow_runs_soft_degrade 5 khiaw_server feed_500
                (Some sample_cache) _ 0 SERVER_BUILD_URL _
                eq_refl eq_refl eq_refl) as (Hlen & Hres & Hfile & _);
      [discriminate|].
    split; [exact Hlen|]. split; [exact Hres | exact Hfile].
  - destruct (proj2 workflow_runs_soft_degrade 0 app_conf_profile sample_repo
                commit_X feed_500 _ ["a1"; "c1"]
                eq_refl eq_refl eq_refl eq_refl)
      as (Ho & _ & Hd).
    exact (conj Ho Hd).
Defined.

(** C4, as the code has it: when, on the pages the first run fetched, every
    run id comes with one record and every run the prior cache held as
    completed is still completed, a second run over the unchanged feed ends
    within the same number of turns, saves the same map, fetches a prefix
    of the pages of the first run, and fetches nothing after a page with a
    run that the saved map holds as completed. *)
Theorem workflow_runs_idempotent fuel profile session file o1 :
  workflow_runs fuel profile session file = Some o1 ->
  ids_consistent (fetched_runs session (sync_fetched o1)) = true ->
  completed_stay (default [] file) (fetched_runs session (sync_fetched o1))
  = true ->
  exists o2,
    workflow_runs fuel profile session (sync_file o1) = Some o2 /\
    sync_file o2 = sync_file o1 /\
    sync_fetched o2 `prefix_of` sync_fetched o1 /\
    (forall i u r,
        sync_fetched o2 !! i = Some u ->
        r ∈ page_runs session u ->
        known_completed (default [] (sync_file o1)) (run_id r) = true ->
        length (sync_fetched o2) = S i).
Proof.
  intros (L & HL & Hf & Hfile & Hres)%workflow_runs_inv Hc Hs.
  rewrite Hf in Hc, Hs.
  destruct (fetch_loop_again _ _ _ _ _ _ (data (loop_state L)) 0 HL eq_refl Hc Hs)
    as (L2 & HL2 & Hd2 & Hp).
  { intros r Hr. rewrite (fetch_loop_state _ _ _ _ _ _ HL).
    by apply fold_merge_lookup. }
  destruct (workflow_runs_loop fuel profile session (sync_file o1) L2)
    as (o2 & Ho2 & Hf2 & Hfile2 & _).
  { by rewrite Hfile. }
  exists o2. split; [done|]. split; [by rewrite Hfile2, Hd2|].
  split; [by rewrite Hf, Hf2|].
  intros i u r Hi Hr Hk. rewrite Hf2 in Hi |- *. rewrite Hfile in Hk.
  eapply (fetch_loop_known _ _ (data (loop_state L))); eauto.
Qed.

Lemma workflow_runs_idempotent_witness :
  exists o1 o2,
    workflow_runs 5 khiaw_server feed_two_pages None = Some o1 /\
    workflow_runs 5 khiaw_server feed_two_pages (sync_file o1) = Some o2 /\
    sync_file o2 = sync_file o1 /\
    sync_fetched o2 `prefix_of` sync_fetched o1.
Proof.
  eexists.
  destruct (workflow_runs_idempotent 5 khiaw_server feed_two_pages None _
              eq_refl eq_refl eq_refl) as (o2 & H2 & Hfile & Hp & _).
  exists o2. split; [reflexivity|]. split; [exact H2|].
  split; [exact Hfile | exact Hp].
Defined.

(** C4 as stated fails: run 13 is cached as completed and the unchanged
    feed lists it as in progress.  The first run stops after the first page
    and stores the run as in progress; the second run then no longer
    recognises it, goes on to the next page, and saves a larger map. *)
Lemma workflow_runs_second_run_differs :
  exists o1 o2,
    workflow_runs 5 khiaw_server feed_rerun (Some cache_before_rerun) = Some o1 /\
    workflow_runs 5 khiaw_server feed_rerun (sync_file o1) = Some o2 /\
    sync_fetched o1 = [SERVER_BUILD_URL] /\
    sync_fetched o2 = [SERVER_BUILD_URL; page2_url] /\
    sync_file o1 = Some [(13%Z, cached SERVER_BUILD_URL run_restarted)] /\
    sync_file o2 = Some [(13%Z, cached SERVER_BUILD_URL run_restarted);
                         (12%Z, cached SERVER_BUILD_URL run_good)] /\
    sync_file o2 <> sync_file o1.
Proof.
  eexists. eexists. split; [reflexivity|]. split; [reflexivity|].
  repeat split; try reflexivity. discriminate.
Qed.

(** ** [deploy] *)

Lemma hash_files_missing t files path :
  path ∈ files -> t !! path = None -> hash_files t files = None.
Proof.
  intros Hin Hno. apply mapM_None, Exists_exists. eauto.
Qed.

(** C8: when a tracked path is absent from the tree of the target commit,
    the deploy ends with the missing-required-file error whatever the fuel:
    [find_commits] is not entered, nothing is fetched and the cache file is
    left as it was. *)
Theorem deploy_missing_file fuel profile repo commit session path :
  path ∈ files profile ->
  tree commit !! path = None ->
  deploy fuel profile repo commit session =
  Some {| d_out := ["# Preparing deploy ..."];
          d_calls := [];
          d_fetched := [];
          d_file := common_dir_file repo;
          d_result := Raise no_file |}.
Proof.
  intros Hin Hno. unfold deploy.
  by rewrite (hash_files_missing _ _ _ Hin Hno).
Qed.

Lemma deploy_missing_file_witness :
  deploy 0 app_conf_profile sample_repo commit_M full_session =
  Some {| d_out := ["# Preparing deploy ..."];
          d_calls := [];
          d_fetched := [];
          d_file := None;
          d_result := Raise (DeployError "Commit is missing a required file.") |}.
Proof.
  apply (deploy_missing_file 0 app_conf_profile sample_repo commit_M
           full_session "conf").
  - apply elem_of_cons. right. apply elem_of_cons. by left.
  - reflexivity.
Defined.

Lemma deploy_calls fuel profile repo commit session wanted_hash d :
  hash_files (tree commit) (files profile) = Some wanted_hash ->
  deploy fuel profile repo commit session = Some d ->
  d_calls d =
  find_commits_calls (head_commit repo) (files profile) wanted_hash.
Proof.
  intros Hh. unfold deploy. rewrite Hh.
  intros (s & Hs & Hd)%bind_Some.
  destruct (sync_result s) as [runs|e]; [|by injection Hd as <-].
  destruct (find_workflow_run profile runs _) as [out_f [r|e]];
    [|by injection Hd as <-].
  destruct (artifact_url session r _) as [out_a [url|e]];
    by injection Hd as <-.
Qed.

(** C10: the traversal of a deploy is the one that starts at the head of
    the repository, whatever the target commit whose tuple is wanted.  When
    the tuple of the head differs from the wanted one (or the head lacks a
    tracked path) the matched set is empty, so the target commit is not in
    it; only the head is entered and the deploy can only end with an
    exception. *)
Theorem deploy_starts_at_head fuel profile repo commit session wanted_hash :
  hash_files (tree commit) (files profile) = Some wanted_hash ->
  (forall d,
      deploy fuel profile repo commit session = Some d ->
      d_calls d =
      find_commits_calls (head_commit repo) (files profile) wanted_hash /\
      List.head (d_calls d) = Some (hexsha (head_commit repo))) /\
  (hash_files (tree (head_commit repo)) (files profile) <> Some wanted_hash ->
   wanted_commits_of profile repo wanted_hash = ∅ /\
   (hexsha commit ∉ wanted_commits_of profile repo wanted_hash) /\
   forall d,
     deploy fuel profile repo commit session = Some d ->
     d_calls d = [hexsha (head_commit repo)] /\
     exists e, d_result d = Raise e).
Proof.
  intros Hh. split.
  - intros d Hd. rewrite (deploy_calls _ _ _ _ _ _ _ Hh Hd).
    split; [done|]. by rewrite find_commits_calls_eq.
  - intros Hne.
    assert (keeps (files profile) wanted_hash (head_commit repo) = false) as K.
    { destruct (keeps _ _ _) eqn:K; [|done]. by apply keeps_true in K. }
    assert (wanted_commits_of profile repo wanted_hash = ∅) as Hempty.
    { unfold wanted_commits_of. by rewrite find_commits_eq, K. }
    split; [done|]. split; [rewrite Hempty; apply not_elem_of_empty|].
    intros d Hd. split.
    + rewrite (deploy_calls _ _ _ _ _ _ _ Hh Hd).
      by rewrite find_commits_calls_eq, K.
    + revert Hd. unfold deploy. rewrite Hh, Hempty.
      intros (s & Hs & Hd)%bind_Some.
      destruct (sync_result s) as [runs|e]; [|injection Hd as <-; eauto].
      rewrite find_workflow_run_nothing_wanted in Hd.
      injection Hd as <-. eauto.
Qed.

Lemma deploy_starts_at_head_witness :
  wanted_commits_of app_conf_profile sample_repo ["a1"; "c2"] = ∅ /\
  (hexsha commit_Z ∉
     wanted_commits_of app_conf_profile sample_repo ["a1"; "c2"]) /\
  exists d,
    deploy 5 app_conf_profile sample_repo commit_Z full_session = Some d /\
    d_calls d = ["X"] /\
    exists e, d_result d = Raise e.
Proof.
  destruct (proj2 (deploy_starts_at_head 5 app_conf_profile sample_repo
                     commit_Z full_session ["a1"; "c2"] eq_refl))
    as (H1 & H2 & H3); [discriminate|].
  split; [exact H1|]. split; [exact H2|].
  eexists. split; [reflexivity|]. exact (H3 _ eq_refl).
Defined.

(** A whole deploy on the sample data: target and head are [X]. *)
Example deploy_sample :
  deploy 5 app_conf_profile sample_repo commit_X full_session =
  Some {| d_out :=
            ["# Preparing deploy ..."; "Found 1 matching commits.";
             "Created workflow run database.";
             "Fetching workflow runs ..."; "Fetching workflow runs ...";
             "Added/updated 4 workflow run(s).";
             "Matching workflow runs:";
             "- https://github.com/ornicar/lila/actions/runs/14 PENDING.";
             "- https://github.com/ornicar/lila/actions/runs/13 FAILED.";
             "- https://github.com/ornicar/lila/actions/runs/12 succeeded.";
             "- https://github.com/ornicar/lila/actions/runs/11 succeeded.";
             "Selected https://github.com/ornicar/lila/actions/runs/12.";
             "Artifact expired.";
             "Deploying https://api.github.com/artifacts/2/zip to root@khiaw.lichess.ovh..."];
          d_calls := ["X"; "Z"];
          d_fetched := [SERVER_BUILD_URL; page2_url;
                        "https://api.github.com/runs/12/artifacts"];
          d_file := Some sample_cache;
          d_result := Return (cached SERVER_BUILD_URL run_good,
                              "https://api.github.com/artifacts/2/zip") |}.
Proof. by vm_compute. Qed.

(** The head [X] differs from the target [Z]: although [Z] is an ancestor
    of the head and is the commit whose tuple is wanted, nothing matches. *)
Example deploy_target_behind_head :
  fmap d_result (deploy 5 app_conf_profile sample_repo commit_Z full_session)
  = Some (Raise no_run) /\
  fmap d_calls (deploy 5 app_conf_profile sample_repo commit_Z full_session)
  = Some ["X"].
Proof. by vm_compute. Qed.

(** * Further properties of the code *)

(** ** Commit matcher *)

(** X1: [hash_files] raises [KeyError] exactly when a tracked path is absent
    from the tree; otherwise the tuple has one digest per path, the digest
    of the i-th path at position i. *)
Theorem hash_files_shape t files :
  (hash_files t files = None <-> exists path, path ∈ files /\ t !! path = None) /\
  (forall tu,
      hash_files t files = Some tu ->
      length tu = length files /\
      forall i path, files !! i = Some path -> tu !! i = t !! path).
Proof.
  unfold hash_files. split.
  - rewrite mapM_None, Exists_exists. done.
  - intros tu H%mapM_Some. split.
    + symmetry. by eapply Forall2_length.
    + intros i path Hi.
      destruct (Forall2_lookup_l _ _ _ _ _ H Hi) as (y & Hy & Hty).
      by rewrite Hy, Hty.
Qed.

Lemma hash_files_shape_witness :
  length ["a1"; "c1"] = length app_conf /\
  forall i path, app_conf !! i = Some path ->
                 ["a1"; "c1"] !! i = tree_same !! path.
Proof.
  exact (proj2 (hash_files_shape tree_same app_conf) ["a1"; "c1"] eq_refl).
Defined.

Lemma kept_chain_trans files wanted a b c :
  kept_chain files wanted a b -> kept_chain files wanted b c ->
  kept_chain files wanted a c.
Proof.
  induction 1 as [x K | x p d K Hp _ IH]; intros Hbc.
  - done.
  - eapply kept_parent; eauto.
Qed.

(** X2: what the traversal finds from a commit on a matching chain below
    the head, it finds from the head too. *)
Theorem find_commits_sub_traversal head c files wanted h :
  kept_chain files wanted head c ->
  h ∈ find_commits c files wanted ->
  h ∈ find_commits head files wanted.
Proof.
  intros Hc (d & Hd & <-)%find_commits_chain.
  apply find_commits_chain. exists d. split; [|done].
  by eapply kept_chain_trans.
Qed.

Lemma find_commits_sub_traversal_witness :
  "Y" ∈ find_commits commit_G app_conf ["a1"; "c1"].
Proof.
  apply (find_commits_sub_traversal commit_G commit_Y).
  - eapply kept_parent; [reflexivity | | by constructor].
    apply elem_of_cons. right. by left.
  - by left.
Defined.

Lemma kept_chain_no_paths head c :
  kept_chain [] [] head c <-> reachable head c.
Proof.
  split.
  - induction 1; [constructor | by eapply reach_parent].
  - induction 1; [by constructor | by eapply kept_parent].
Qed.

(** X3: with no tracked path at all and the empty tuple wanted, nothing is
    pruned: the ids found are those of all commits reachable from the
    head. *)
Theorem find_commits_no_tracked_paths head h :
  h ∈ find_commits head [] [] <-> exists d, reachable head d /\ hexsha d = h.
Proof.
  rewrite find_commits_chain. split; intros (d & Hd & <-); exists d;
    (split; [by apply kept_chain_no_paths | done]).
Qed.

(** X4: the matched set of a deploy is empty exactly when the tuple of the
    head is not the wanted one; otherwise it holds the id of the head.  So
    a deploy of the head itself always has a matching commit. *)
Theorem wanted_commits_head profile repo wanted_hash :
  (wanted_commits_of profile repo wanted_hash <> ∅ <->
   hash_files (tree (head_commit repo)) (files profile) = Some wanted_hash) /\
  (hash_files (tree (head_commit repo)) (files profile) = Some wanted_hash ->
   hexsha (head_commit repo) ∈ wanted_commits_of profile repo wanted_hash).
Proof.
  unfold wanted_commits_of. rewrite find_commits_eq, <- keeps_true.
  destruct (keeps _ _ _); simpl.
  - split; [|intros _; apply elem_of_union_l; by apply elem_of_singleton].
    split; [done|]. intros _ He.
    assert (hexsha (head_commit repo) ∈ (∅ : gset string)) as H0.
    { rewrite <- He. apply elem_of_union_l. by apply elem_of_singleton. }
    by apply not_elem_of_empty in H0.
  - split; [|done]. split; [by intros H | done].
Qed.

Lemma wanted_commits_head_witness :
  hexsha commit_X ∈ wanted_commits_of app_conf_profile sample_repo ["a1"; "c1"].
Proof.
  exact (proj2 (wanted_commits_head app_conf_profile sample_repo ["a1"; "c1"])
               eq_refl).
Defined.

(** ** Run cache synchronizer *)

Section DictOrder.
Context {V : Type}.
Implicit Types (d e : dict V) (k : Z) (v : V).

Lemma dict_keys_set k v d :
  dict_keys (dict_set k v d) =
  if bool_decide (k ∈ dict_keys d) then dict_keys d else dict_keys d ++ [k].
Proof.
  induction d as [|[k' v'] d IH]; simpl; [done|].
  destruct (decide (k' = k)) as [->|Hne].
  - rewrite (bool_decide_eq_true_2 (k = k)) by done. simpl.
    rewrite bool_decide_eq_true_2; [done | by left].
  - rewrite (bool_decide_eq_false_2 (k' = k)) by done. simpl. rewrite IH.
    destruct (decide (k ∈ dict_keys d)) as [Hin|Hin].
    + rewrite !bool_decide_eq_true_2; [done | by right | done].
    + rewrite !bool_decide_eq_false_2; [done | | done].
      intros [?|?]%elem_of_cons; [by subst | done].
Qed.

Lemma dict_set_elem k v d k' v' :
  (k', v') ∈ dict_set k v d -> (k', v') ∈ d \/ (k' = k /\ v' = v).
Proof.
  induction d as [|[k0 v0] d IH]; simpl.
  - intros [= -> ->]%list_elem_of_singleton. by right.
  - case_bool_decide.
    + intros [[= -> ->]|?]%elem_of_cons; [by right|]. left. by right.
    + intros [[= -> ->]|H']%elem_of_cons; [left; by left|].
      destruct (IH H') as [?|?]; [left; by right | by right].
Qed.

Lemma dict_set_app k v d e :
  k ∉ dict_keys d -> dict_set k v (d ++ e) = d ++ dict_set k v e.
Proof.
  induction d as [|[k0 v0] d IH]; simpl; [done|].
  intros Hk. rewrite bool_decide_eq_false_2.
  - rewrite IH; [done|]. intros ?. apply Hk. by right.
  - intros ->. apply Hk. by left.
Qed.
End DictOrder.

Section MergeOrder.
Variable wurl : string.
#[local] Abbreviation merge := (merge_run wurl).

Lemma fold_merge_untouched rs st k :
  k ∉ run_id <$> rs ->
  dict_get k (data (fold_left merge rs st)) = dict_get k (data st).
Proof.
  revert st. induction rs as [|r rs IH]; intros st Hk; simpl; [done|].
  rewrite IH.
  - simpl. apply dict_get_set_ne. intros E. apply Hk. rewrite fmap_cons.
    rewrite E. by left.
  - intros ?. apply Hk. rewrite fmap_cons. by right.
Qed.

Lemma fold_merge_keys rs st :
  exists added,
    dict_keys (data (fold_left merge rs st)) = dict_keys (data st) ++ added /\
    (forall k, k ∈ added -> k ∈ run_id <$> rs) /\
    (NoDup (dict_keys (data st)) ->
     NoDup (dict_keys (data (fold_left merge rs st)))).
Proof.
  revert st. induction rs as [|r rs IH]; intros st; simpl.
  - exists []. rewrite app_nil_r. split; [done|].
    split; [by intros k ?%elem_of_nil | done].
  - destruct (IH (merge st r)) as (added & Hk & Hin & Hnd).
    simpl in Hk, Hnd. rewrite dict_keys_set in Hk, Hnd.
    case_bool_decide as Hr.
    + exists added. split; [done|]. split; [|done].
      intros k Hka. apply elem_of_cons. right. by apply Hin.
    + exists (run_id r :: added). split; [by rewrite Hk, <- app_assoc|].
      split.
      * intros k [->|Hka]%elem_of_cons; apply elem_of_cons;
          [by left | right; by apply Hin].
      * intros Hn. apply Hnd. apply NoDup_app. split; [done|].
        split; [|apply NoDup_singleton].
        intros k Hk1 ->%list_elem_of_singleton. done.
Qed.

Lemma fold_merge_keyed rs st :
  keyed_by_id (data st) -> keyed_by_id (data (fold_left merge rs st)).
Proof.
  revert st. induction rs as [|r rs IH]; intros st H; simpl; [done|].
  apply IH. simpl. intros k c [Hin|[-> ->]]%dict_set_elem; [by apply H | done].
Qed.

(** Every entry after a merge is an entry from before or carries the tag. *)
Lemma fold_merge_tagged rs st c :
  c ∈ dict_values (data (fold_left merge rs st)) ->
  c ∈ dict_values (data st) \/ _workflow_url c = wurl.
Proof.
  revert st. induction rs as [|r rs IH]; intros st; simpl; [by left|].
  intros [Hc|Hc]%IH; [|by right]. simpl in Hc.
  unfold dict_values in *.
  apply list_elem_of_fmap in Hc as ([k c'] & -> & Hin).
  apply dict_set_elem in Hin as [Hin|[-> ->]]; [|by right].
  left. apply list_elem_of_fmap. by exists (k, c').
Qed.

(** Runs under new ids are appended behind the entries that were there. *)
Lemma fold_merge_new_ids rs st :
  (forall r, r ∈ rs -> run_id r ∉ dict_keys (data st)) ->
  exists extra, data (fold_left merge rs st) = data st ++ extra.
Proof.
  intros Hnew.
  assert (forall st', (exists e, data st' = data st ++ e) ->
            exists extra, data (fold_left merge rs st') = data st ++ extra)
    as Hgen.
  { clear -Hnew. revert Hnew.
    induction rs as [|r rs IH]; intros Hnew st' [e He]; simpl; [eauto|].
    apply IH.
    - intros r' Hr'. apply Hnew. by right.
    - simpl. rewrite He, dict_set_app by (apply Hnew; by left). eauto. }
  apply Hgen. exists []. by rewrite app_nil_r.
Qed.
End MergeOrder.

Ltac loop_turn H :=
  match type of H with
  | fetch_loop _ ?session _ ?url ?st = Some _ =>
      let Hsy := fresh "Hsy" in
      let Hf := fresh "Hf" in
      destruct (synced st) eqn:Hsy;
      [ rewrite fetch_loop_synced in H by done; injection H as <-
      | first
          [ by rewrite fetch_loop_out_of_fuel in H
          | rewrite fetch_loop_turn in H by done;
            destruct (fetch session url) as [?e|?res|?runs [?url'|]] eqn:Hf;
            cbn zeta in H ] ]
  end.

(** The urls fetched form a chain: the first is the url the loop starts
    with, each later one is the [next] link of the page fetched before. *)
Lemma fetch_loop_links session wurl fuel url st L :
  fetch_loop fuel session wurl url st = Some L ->
  (synced st = false -> loop_fetched L !! 0 = Some url) /\
  (forall u, loop_fetched L !! 0 = Some u -> u = url) /\
  (forall i u u',
      loop_fetched L !! i = Some u -> loop_fetched L !! S i = Some u' ->
      exists runs, fetch session u = FetchPage runs (Some u')).
Proof.
  revert url st L. induction fuel as [|fuel IH]; intros url st L H;
    loop_turn H; try done.
  - injection H as <-. simpl. split; [done|]. split; [congruence|].
    by intros [|i] u u'.
  - injection H as <-. simpl. split; [done|]. split; [congruence|].
    by intros [|i] u u'.
  - apply fmap_Some in H as (L0 & H0 & ->). simpl.
    destruct (IH _ _ _ H0) as (_ & Hfirst & Hchain).
    split; [done|]. split; [congruence|].
    intros [|i] u u' Hu Hu'; simpl in Hu, Hu'.
    + injection Hu as <-. rewrite (Hfirst _ Hu'). eauto.
    + by eapply Hchain.
  - injection H as <-. simpl. split; [done|]. split; [congruence|].
    by intros [|i] u u'.
Qed.

(** The loop ends with an exception exactly when its last fetch raised. *)
Lemma fetch_loop_raised session wurl fuel url st L e :
  fetch_loop fuel session wurl url st = Some L ->
  loop_raised L = Some e <->
  exists u, last (loop_fetched L) = Some u /\ fetch session u = FetchRaised e.
Proof.
  revert url st L. induction fuel as [|fuel IH]; intros url st L H;
    loop_turn H; try done.
  - simpl. split; [done|]. by intros (u & ? & _).
  - simpl. split; [done|]. by intros (u & ? & _).
  - injection H as <-. simpl. split.
    + intros [= ->]. eauto.
    + intros (u & [= <-] & Hu). congruence.
  - injection H as <-. simpl. split; [done|].
    intros (u & [= <-] & Hu). congruence.
  - apply fmap_Some in H as (L0 & H0 & ->). simpl.
    destruct (synced (fold_left (merge_run wurl) runs st)) eqn:Hs'.
    + rewrite fetch_loop_synced in H0 by done. injection H0 as <-. simpl.
      split; [done|]. intros (u & [= <-] & Hu). congruence.
    + destruct (fetch_loop_links _ _ _ _ _ _ H0) as (Hfirst & _).
      specialize (Hfirst Hs').
      destruct (loop_fetched L0) as [|x l] eqn:El; [done|].
      rewrite (IH _ _ _ H0), El. done.
  - injection H as <-. simpl. split; [done|].
    intros (u & [= <-] & Hu). congruence.
Qed.

(** X5: a synchronization leaves alone every entry whose id is not among
    the runs it fetched: the saved map gives, under such an id, what the
    prior cache gave. *)
Theorem workflow_runs_untouched fuel profile session file o k :
  workflow_runs fuel profile session file = Some o ->
  k ∉ run_id <$> fetched_runs session (sync_fetched o) ->
  dict_get k (default [] (sync_file o)) = dict_get k (default [] file).
Proof.
  intros (L & HL & Hf & Hfile & _)%workflow_runs_inv Hk.
  rewrite Hfile. simpl. rewrite (fetch_loop_state _ _ _ _ _ _ HL).
  rewrite fold_merge_untouched; [done|]. by rewrite <- Hf.
Qed.

Lemma workflow_runs_untouched_witness :
  exists o,
    workflow_runs 5 khiaw_server feed_two_pages
                  (Some [(15%Z, cached ASSETS_BUILD_URL run_elsewhere)])
    = Some o /\
    dict_get 15 (default [] (sync_file o))
    = Some (cached ASSETS_BUILD_URL run_elsewhere).
Proof.
  eexists. split; [reflexivity|].
  apply (workflow_runs_untouched 5 khiaw_server feed_two_pages
           (Some [(15%Z, cached ASSETS_BUILD_URL run_elsewhere)]) _ 15 eq_refl).
  by vm_compute; intros H; repeat (apply elem_of_cons in H as [H|H];
                                   [discriminate|]); apply elem_of_nil in H.
Defined.

(** X6: a synchronization only appends: the keys of the prior cache keep
    their places at the front of the saved map, every key behind them is
    the id of a fetched run, keys stay distinct, and entries stay under the
    id of their run. *)
Theorem workflow_runs_appends fuel profile session file o :
  workflow_runs fuel profile session file = Some o ->
  exists added,
    dict_keys (default [] (sync_file o)) = dict_keys (default [] file) ++ added /\
    (forall k, k ∈ added ->
               k ∈ run_id <$> fetched_runs session (sync_fetched o)) /\
    (NoDup (dict_keys (default [] file)) ->
     NoDup (dict_keys (default [] (sync_file o)))) /\
    (keyed_by_id (default [] file) -> keyed_by_id (default [] (sync_file o))).
Proof.
  intros (L & HL & Hf & Hfile & _)%workflow_runs_inv.
  rewrite Hfile, Hf. simpl. rewrite (fetch_loop_state _ _ _ _ _ _ HL).
  destruct (fold_merge_keys (workflow_url profile)
              (fetched_runs session (loop_fetched L))
              (sync_start (default [] file))) as (added & Hk & Hin & Hnd).
  exists added. split; [done|]. split; [done|]. split; [done|].
  exact (fold_merge_keyed _ _ (sync_start (default [] file))).
Qed.

Lemma workflow_runs_appends_witness :
  exists o added,
    workflow_runs 5 khiaw_server feed_two_pages
                  (Some [(12%Z, cached SERVER_BUILD_URL run_good)]) = Some o /\
    dict_keys (default [] (sync_file o)) = [12%Z] ++ added /\
    NoDup (dict_keys (default [] (sync_file o))).
Proof.
  eexists.
  destruct (workflow_runs_appends 5 khiaw_server feed_two_pages
              (Some [(12%Z, cached SERVER_BUILD_URL run_good)]) _ eq_refl)
    as (added & Hk & _ & Hnd & _).
  exists added. split; [reflexivity|]. split; [exact Hk|].
  apply Hnd. apply NoDup_singleton.
Defined.

(** X7: in any synchronization, a page with a run that the prior cache
    holds as completed is the last page fetched. *)
Theorem workflow_runs_stops_at_known fuel profile session file o i u r :
  workflow_runs fuel profile session file = Some o ->
  sync_fetched o !! i = Some u ->
  r ∈ page_runs session u ->
  known_completed (default [] file) (run_id r) = true ->
  length (sync_fetched o) = S i.
Proof.
  intros (L & HL & Hf & _)%workflow_runs_inv Hi Hr Hk.
  rewrite Hf in Hi |- *.
  by eapply (fetch_loop_known _ _ (default [] file)); eauto.
Qed.

Lemma workflow_runs_stops_at_known_witness :
  exists o,
    workflow_runs 5 khiaw_server feed_two_pages
                  (Some [(13%Z, cached SERVER_BUILD_URL run_failed)]) = Some o /\
    length (sync_fetched o) = 1.
Proof.
  eexists. split; [reflexivity|].
  apply (workflow_runs_stops_at_known 5 khiaw_server feed_two_pages
           (Some [(13%Z, cached SERVER_BUILD_URL run_failed)]) _ 0
           SERVER_BUILD_URL run_failed eq_refl eq_refl).
  - apply elem_of_cons. right. by left.
  - reflexivity.
Defined.

(** X8: a synchronization always asks the feed at least once, first at the
    workflow url of the profile; every later fetch goes to the [next] link
    of the page fetched just before. *)
Theorem workflow_runs_follows_links fuel profile session file o :
  workflow_runs fuel profile session file = Some o ->
  sync_fetched o !! 0 = Some (workflow_url profile) /\
  (forall i u u',
      sync_fetched o !! i = Some u -> sync_fetched o !! S i = Some u' ->
      exists runs, fetch session u = FetchPage runs (Some u')).
Proof.
  intros (L & HL & Hf & _)%workflow_runs_inv. rewrite Hf.
  destruct (fetch_loop_links _ _ _ _ _ _ HL) as (H0 & _ & Hchain).
  split; [by apply H0 | done].
Qed.

Lemma workflow_runs_follows_links_witness :
  exists o,
    workflow_runs 5 khiaw_server feed_two_pages None = Some o /\
    sync_fetched o !! 0 = Some SERVER_BUILD_URL.
Proof.
  eexists. split; [reflexivity|].
  exact (proj1 (workflow_runs_follows_links 5 khiaw_server feed_two_pages
                  None _ eq_refl)).
Defined.

(** X9: a synchronization raises exactly when its last fetch did: no
    answer, a body that is not JSON, or a body without [workflow_runs].
    It raises nothing else, in particular no [DeployError]. *)
Theorem workflow_runs_raises fuel profile session file o e :
  workflow_runs fuel profile session file = Some o ->
  (sync_result o = Raise e <->
   exists u, last (sync_fetched o) = Some u /\
             fetch session u = FetchRaised e) /\
  (sync_result o = Raise e ->
   e = ConnectionError \/ e = JSONDecodeError \/ e = KeyError).
Proof.
  intros (L & HL & Hf & _ & Hres)%workflow_runs_inv.
  assert (sync_result o = Raise e <-> loop_raised L = Some e) as Hr.
  { rewrite Hres. destruct (loop_raised L); split; congruence. }
  rewrite Hr, Hf, (fetch_loop_raised _ _ _ _ _ _ e HL).
  split; [done|]. intros (u & _ & Hu). revert Hu. unfold fetch.
  destruct (session u) as [res|]; [|intros [= <-]; by left].
  case_bool_decide; [done|].
  destruct (json res) as [j|]; [|intros [= <-]; right; by left].
  destruct (json_workflow_runs j); [done|]. intros [= <-]. right. by right.
Qed.

Lemma workflow_runs_raises_witness :
  exists o,
    workflow_runs 5 khiaw_server feed_broken None = Some o /\
    sync_result o = Raise ConnectionError.
Proof.
  eexists. split; [reflexivity|].
  apply (proj1 (workflow_runs_raises 5 khiaw_server feed_broken None _
                  ConnectionError eq_refl)).
  exists page2_url. split; reflexivity.
Defined.

(** ** Synchronizer and locator together *)

Lemma filter_relevant_none profile wanted l :
  (forall c, c ∈ l -> relevant profile wanted c = false) ->
  List.filter (relevant profile wanted) l = [].
Proof.
  induction l as [|c l IH]; intros H; simpl; [done|].
  rewrite (H c) by (by left). apply IH. intros c' Hc'. apply H. by right.
Qed.

(** X10: runs cached from the feed of one profile are never selected for a
    profile with another feed: when no prior entry carries the feed of
    [other], the locator for [other] fails after a synchronization for
    [profile], whatever commits are wanted. *)
Theorem sync_other_feed_not_selected fuel profile other session file o wanted :
  workflow_runs fuel profile session file = Some o ->
  workflow_url other <> workflow_url profile ->
  (forall c, c ∈ dict_values (default [] file) ->
             _workflow_url c <> workflow_url other) ->
  find_workflow_run other (default [] (sync_file o)) wanted =
  (["Matching workflow runs:"], Raise no_run).
Proof.
  intros (L & HL & _ & Hfile & _)%workflow_runs_inv Hne Hprior.
  rewrite Hfile, find_workflow_run_eq. simpl.
  rewrite filter_relevant_none; [done|].
  intros c Hc. rewrite (fetch_loop_state _ _ _ _ _ _ HL) in Hc.
  unfold relevant. apply andb_false_iff. right. apply bool_decide_eq_false.
  apply fold_merge_tagged in Hc as [Hc|Hc]; [by apply Hprior | congruence].
Qed.

Lemma sync_other_feed_not_selected_witness :
  exists o,
    workflow_runs 5 khiaw_assets assets_runs_feed None = Some o /\
    find_workflow_run khiaw_server (default [] (sync_file o)) {[ "X" ]} =
    (["Matching workflow runs:"], Raise no_run).
Proof.
  eexists. split; [reflexivity|].
  apply (sync_other_feed_not_selected 5 khiaw_assets khiaw_server
           assets_runs_feed None _ {[ "X" ]} eq_refl).
  - discriminate.
  - by intros c ?%elem_of_nil.
Defined.

Lemma find_workflow_run_app profile runs extra wanted r :
  (find_workflow_run profile runs wanted).2 = Return r ->
  (find_workflow_run profile (runs ++ extra) wanted).2 = Return r.
Proof.
  rewrite !find_workflow_run_eq. simpl. unfold dict_values.
  rewrite map_app, !List.filter_app.
  destruct (List.filter successful
              (List.filter (relevant profile wanted) (map snd runs)));
    [done|]. done.
Qed.

(** X11: runs fetched under ids that are new to the cache never displace a
    selection: if the locator finds a run in the prior cache, it finds the
    same run after the synchronization, even when a newly fetched run is
    successful too. *)
Theorem sync_keeps_selection fuel profile session prior o wanted r :
  workflow_runs fuel profile session (Some prior) = Some o ->
  (find_workflow_run profile prior wanted).2 = Return r ->
  (forall x, x ∈ fetched_runs session (sync_fetched o) ->
             run_id x ∉ dict_keys prior) ->
  (find_workflow_run profile (default [] (sync_file o)) wanted).2 = Return r.
Proof.
  intros (L & HL & Hf & Hfile & _)%workflow_runs_inv Hr Hnew.
  pose proof (fetch_loop_state _ _ _ _ _ _ HL) as Hst.
  destruct (fold_merge_new_ids (workflow_url profile)
              (fetched_runs session (loop_fetched L))
              (sync_start (default [] (Some prior))))
    as (extra & He).
  { intros x Hx. apply Hnew. by rewrite Hf. }
  rewrite Hfile. cbn [default from_option]. rewrite Hst, He.
  by apply find_workflow_run_app.
Qed.

Lemma sync_keeps_selection_witness :
  exists o,
    workflow_runs 5 khiaw_server newer_runs_feed (Some sample_cache) = Some o /\
    dict_keys (default [] (sync_file o)) = [14; 13; 12; 11; 17; 16]%Z /\
    (find_workflow_run khiaw_server (default [] (sync_file o)) {[ "X" ]}).2 =
    Return (cached SERVER_BUILD_URL run_good).
Proof.
  eexists. split; [reflexivity|]. split; [reflexivity|].
  apply (sync_keeps_selection 5 khiaw_server newer_runs_feed sample_cache _
           {[ "X" ]} (cached SERVER_BUILD_URL run_good)).
  - reflexivity.
  - by vm_compute.
  - intros x Hx H. vm_compute in Hx, H.
    repeat (apply elem_of_cons in Hx as [->|Hx];
            [repeat (apply elem_of_cons in H as [H|H]; [discriminate|]);
             by apply elem_of_nil in H|]).
    by apply elem_of_nil in Hx.
Defined.

(** ** Artifact resolver *)

(** X12: the resolver never looks at the status of the response: two
    remotes whose answers to the artifact listing have the same body give
    the same result, whatever their status codes. *)
Theorem artifact_url_ignores_status session session' r name :
  json <$> session (run_artifacts_url (run r)) =
  json <$> session' (run_artifacts_url (run r)) ->
  artifact_url session r name = artifact_url session' r name.
Proof.
  unfold artifact_url.
  destruct (session _) as [res|], (session' _) as [res'|]; simpl; try done.
  by intros [= ->].
Qed.

Lemma artifact_url_ignores_status_witness :
  artifact_url artifact_session_500 (cached SERVER_BUILD_URL run_good)
               "lila-server"
  = (["Artifact expired."], Return "https://api.github.com/artifacts/2/zip").
Proof.
  rewrite <- (artifact_url_ignores_status artifact_session artifact_session_500
                (cached SERVER_BUILD_URL run_good) "lila-server" eq_refl).
  reflexivity.
Defined.

(** ** [deploy] as a whole *)

Lemma find_workflow_run_sound profile runs wanted r :
  (find_workflow_run profile runs wanted).2 = Return r ->
  r ∈ dict_values runs /\
  relevant profile wanted r = true /\ successful r = true.
Proof.
  rewrite find_workflow_run_eq. simpl.
  destruct (List.filter successful _) as [|r' l] eqn:E; [done|].
  intros [= ->].
  assert (In r (List.filter successful
                  (List.filter (relevant profile wanted) (dict_values runs))))
    as Hin by (rewrite E; by left).
  apply filter_In in Hin as [Hin Hs]. apply filter_In in Hin as [Hin Hr].
  split; [by apply list_elem_of_In | done].
Qed.

Lemma find_workflow_run_raises profile runs wanted e :
  (find_workflow_run profile runs wanted).2 = Raise e -> e = no_run.
Proof.
  rewrite find_workflow_run_eq. simpl.
  destruct (List.filter successful _); [by intros [= <-] | done].
Qed.

Lemma artifact_scan_sound artifacts name url :
  (artifact_scan artifacts name).2 = Return url ->
  exists a, a ∈ artifacts /\ art_name a = name /\
            url = art_archive_download_url a.
Proof.
  induction artifacts as [|a l IH]; simpl; [done|].
  case_bool_decide as Hn.
  - intros [= <-]. exists a. split; [by left | done].
  - intros (a' & Ha' & H')%IH. exists a'. split; [by right | done].
Qed.

Lemma artifact_scan_raises artifacts name e :
  (artifact_scan artifacts name).2 = Raise e ->
  e = DeployError ("Did not find artifact " +:+ name +:+ ".").
Proof.
  induction artifacts as [|a l IH]; simpl; [by intros [= <-]|].
  by case_bool_decide.
Qed.

Lemma fetch_raised_kind session u e :
  fetch session u = FetchRaised e ->
  e = ConnectionError \/ e = JSONDecodeError \/ e = KeyError.
Proof.
  unfold fetch. destruct (session u) as [res|]; [|intros [= <-]; by left].
  case_bool_decide; [done|].
  destruct (json res) as [j|]; [|intros [= <-]; right; by left].
  destruct (json_workflow_runs j); [done|]. intros [= <-]. right. by right.
Qed.

Lemma workflow_runs_raised_kind fuel profile session file o e :
  workflow_runs fuel profile session file = Some o ->
  sync_result o = Raise e ->
  e = ConnectionError \/ e = JSONDecodeError \/ e = KeyError.
Proof.
  intros (L & HL & _ & _ & Hres)%workflow_runs_inv. rewrite Hres.
  destruct (loop_raised L) as [e'|] eqn:Hr; [|done]. intros [= <-].
  apply (fetch_loop_raised _ _ _ _ _ _ e' HL) in Hr as (u & _ & Hu).
  by eapply fetch_raised_kind.
Qed.

(** The stages of a deploy whose target has every tracked path. *)
Lemma deploy_inv fuel profile repo commit session wanted_hash d :
  hash_files (tree commit) (files profile) = Some wanted_hash ->
  deploy fuel profile repo commit session = Some d ->
  exists s,
    workflow_runs fuel profile session (common_dir_file repo) = Some s /\
    d_file d = sync_file s /\
    ((exists e, sync_result s = Raise e /\ d_result d = Raise e /\
                d_fetched d = sync_fetched s) \/
     (exists runs,
         sync_result s = Return runs /\
         ((exists e,
              (find_workflow_run profile runs
                 (wanted_commits_of profile repo wanted_hash)).2 = Raise e /\
              d_result d = Raise e /\ d_fetched d = sync_fetched s) \/
          (exists r,
              (find_workflow_run profile runs
                 (wanted_commits_of profile repo wanted_hash)).2 = Return r /\
              d_fetched d = sync_fetched s ++ [run_artifacts_url (run r)] /\
              ((exists e,
                   (artifact_url session r (artifact_name profile)).2 = Raise e /\
                   d_result d = Raise e) \/
               (exists url,
                   (artifact_url session r (artifact_name profile)).2
                   = Return url /\
                   d_result d = Return (r, url))))))).
Proof.
  intros Hh. unfold deploy. rewrite Hh.
  intros (s & Hs & Hd)%bind_Some. exists s. split; [done|].
  destruct (sync_result s) as [runs|e] eqn:Hres.
  - destruct (find_workflow_run profile runs _) as [out_f [r|e]] eqn:Hfound.
    + destruct (artifact_url session r _) as [out_a [url|e]] eqn:Hgot;
        injection Hd as <-; (split; [done|]); right; exists runs;
        (split; [done|]); right; exists r; rewrite Hfound, Hgot; simpl;
        (split; [done|]); (split; [done|]); [right | left]; eauto.
    + injection Hd as <-. split; [done|]. right. exists runs.
      split; [done|]. left. exists e. by rewrite Hfound.
  - injection Hd as <-. split; [done|]. left. exists e. done.
Qed.

(** X13: a deploy that hands over a run and a url has found them soundly:
    the head commit of the run is the id of a commit linked to the head of
    the repository by a chain of commits that all have the tuple of the
    target; the run is in the saved cache, tagged with the feed of the
    profile, completed and successful; and the url is the download url of
    an artifact with the configured name in the listing of that run, which
    was the last thing fetched. *)
Theorem deploy_sound fuel profile repo commit session d r url :
  deploy fuel profile repo commit session = Some d ->
  d_result d = Return (r, url) ->
  exists wanted_hash runs res j artifacts a,
    hash_files (tree commit) (files profile) = Some wanted_hash /\
    (exists c, kept_chain (files profile) wanted_hash (head_commit repo) c /\
               hexsha c = run_head_commit_id (run r)) /\
    d_file d = Some runs /\ r ∈ dict_values runs /\
    _workflow_url r = workflow_url profile /\
    run_status (run r) = "completed" /\
    run_conclusion (run r) = Some "success" /\
    last (d_fetched d) = Some (run_artifacts_url (run r)) /\
    session (run_artifacts_url (run r)) = Some res /\
    json res = Some j /\ json_artifacts j = Some artifacts /\
    a ∈ artifacts /\ art_name a = artifact_name profile /\
    url = art_archive_download_url a.
Proof.
  intros Hd Hres.
  destruct (hash_files (tree commit) (files profile)) as [wanted_hash|] eqn:Hh;
    [|unfold deploy in Hd; rewrite Hh in Hd; injection Hd as <-; done].
  destruct (deploy_inv _ _ _ _ _ _ _ Hh Hd) as (s & Hs & Hfile & Hstage).
  destruct Hstage as [(e & _ & He & _) | (runs & Hsync & Hstage)];
    [congruence|].
  destruct Hstage as [(e & _ & He & _) | (r' & Hfound & Hfetched & Hstage)];
    [congruence|].
  destruct Hstage as [(e & _ & He) | (url' & Hgot & Hret)]; [congruence|].
  rewrite Hres in Hret. injection Hret as <- <-.
  apply find_workflow_run_sound in Hfound as (Hin & Hrel & Hsucc).
  apply andb_true_iff in Hrel as [Hw%bool_decide_eq_true Ht%bool_decide_eq_true].
  apply andb_true_iff in Hsucc as [Hst%bool_decide_eq_true Hc%bool_decide_eq_true].
  unfold wanted_commits_of in Hw.
  apply elem_of_list_to_set, find_commits_chain in Hw.
  unfold artifact_url in Hgot.
  destruct (session (run_artifacts_url (run r))) as [res|] eqn:Hsess; [|done].
  destruct (json res) as [j|] eqn:Hj; [|done].
  destruct (json_artifacts j) as [artifacts|] eqn:Ha; [|done].
  apply artifact_scan_sound in Hgot as (a & Hain & Hname & Hurl).
  assert (d_file d = Some runs) as Hsaved.
  { rewrite Hfile.
    destruct (workflow_runs_inv _ _ _ _ _ Hs) as (L & _ & _ & Hf & Hr).
    rewrite Hf. destruct (loop_raised L); congruence. }
  exists wanted_hash, runs, res, j, artifacts, a.
  repeat (split; [done|]). split; [by rewrite Hfetched, last_snoc|].
  done.
Qed.

Lemma deploy_sound_witness :
  exists d r url,
    deploy 5 app_conf_profile sample_repo commit_X full_session = Some d /\
    d_result d = Return (r, url) /\
    run_head_commit_id (run r) = "X" /\
    run_status (run r) = "completed" /\
    run_conclusion (run r) = Some "success".
Proof.
  eexists. eexists. eexists. split; [reflexivity|]. split; [reflexivity|].
  destruct (deploy_sound 5 app_conf_profile sample_repo commit_X full_session
              _ _ _ eq_refl eq_refl)
    as (w & runs & res & j & arts & a & _ & _ & _ & _ & _ & Hst & Hc & _).
  split; [reflexivity|]. split; [exact Hst | exact Hc].
Defined.

Lemma deploy_raise_cases fuel profile repo commit session d e :
  deploy fuel profile repo commit session = Some d ->
  d_result d = Raise e ->
  (e = no_file /\ d_fetched d = [] /\ d_file d = common_dir_file repo) \/
  (e = no_run /\
   exists s, workflow_runs fuel profile session (common_dir_file repo) = Some s /\
             d_fetched d = sync_fetched s) \/
  e = DeployError ("Did not find artifact " +:+ artifact_name profile +:+ ".") \/
  e = ConnectionError \/ e = JSONDecodeError \/ e = KeyError.
Proof.
  intros Hd Hres.
  destruct (hash_files (tree commit) (files profile)) as [wanted_hash|] eqn:Hh.
  - destruct (deploy_inv _ _ _ _ _ _ _ Hh Hd) as (s & Hs & Hfile & Hstage).
    destruct Hstage as [(e' & Hraise & He & _) | (runs & Hsync & Hstage)].
    { rewrite Hres in He. injection He as ->.
      right. right. right. by eapply workflow_runs_raised_kind. }
    destruct Hstage as [(e' & Hf & He & Hfe) | (r & Hfound & Hfetched & Hstage)].
    { rewrite Hres in He. injection He as ->.
      apply find_workflow_run_raises in Hf as ->. right. left. eauto. }
    destruct Hstage as [(e' & Hgot & He) | (url & _ & Hret)]; [|congruence].
    rewrite Hres in He. injection He as ->. right. right.
    unfold artifact_url in Hgot.
    destruct (session _) as [res|]; [|injection Hgot as <-; right; by left].
    destruct (json res) as [j|];
      [|injection Hgot as <-; right; right; by left].
    destruct (json_artifacts j) as [artifacts|];
      [|injection Hgot as <-; right; right; by right].
    left. by eapply artifact_scan_raises.
  - unfold deploy in Hd. rewrite Hh in Hd. injection Hd as <-.
    simpl in Hres. injection Hres as <-. by left.
Qed.

Lemma deploy_no_config_error fuel profile repo commit session d msg :
  deploy fuel profile repo commit session = Some d ->
  d_result d <> Raise (ConfigError msg).
Proof.
  intros Hd Hres.
  destruct (deploy_raise_cases _ _ _ _ _ _ _ Hd Hres)
    as [(H & _)|[(H & _)|[H|[H|[H|H]]]]]; discriminate H.
Qed.



(** X15: once the target has every tracked path, the cache file after the
    deploy is the one the synchronization saved, whatever happens later:
    a map is saved, no prior key is lost, and the feed pages are what the
    deploy fetched first. *)
Theorem deploy_saves_cache fuel profile repo commit session wanted_hash d :
  hash_files (tree commit) (files profile) = Some wanted_hash ->
  deploy fuel profile repo commit session = Some d ->
  exists s m,
    workflow_runs fuel profile session (common_dir_file repo) = Some s /\
    d_file d = Some m /\ sync_file s = Some m /\
    sync_fetched s `prefix_of` d_fetched d /\
    (forall k, is_Some (dict_get k (default [] (common_dir_file repo))) ->
               is_Some (dict_get k m)).
Proof.
  intros Hh Hd.
  destruct (deploy_inv _ _ _ _ _ _ _ Hh Hd) as (s & Hs & Hfile & Hstage).
  destruct (workflow_runs_inv _ _ _ _ _ Hs) as (L & HL & _ & Hsf & _).
  exists s, (data (loop_state L)). split; [done|].
  split; [by rewrite Hfile|]. split; [done|]. split.
  - destruct Hstage as [(e & _ & _ & ->) | (runs & _ & Hstage)]; [done|].
    destruct Hstage as [(e & _ & _ & ->) | (r & _ & -> & _)]; [done|].
    by apply prefix_app_r.
  - intros k Hk. rewrite (fetch_loop_state _ _ _ _ _ _ HL).
    by apply fold_merge_keeps.
Qed.

Lemma deploy_saves_cache_witness :
  exists d s m,
    deploy 5 app_conf_profile sample_repo commit_Z full_session = Some d /\
    d_result d = Raise no_run /\
    workflow_runs 5 app_conf_profile full_session None = Some s /\
    d_file d = Some m /\ sync_file s = Some m.
Proof.
  eexists.
  destruct (deploy_saves_cache 5 app_conf_profile sample_repo commit_Z
              full_session ["a1"; "c2"] _ eq_refl eq_refl)
    as (s & m & Hs & Hd & Hm & _).
  exists s, m. split; [reflexivity|]. split; [reflexivity|].
  split; [exact Hs|]. split; [exact Hd | exact Hm].
Defined.

(** X16: when the feed ends within [n] pages, a deploy with [n] turns for
    the loop ends, with a result or an exception. *)
Theorem deploy_ends n profile repo commit session :
  feed_ends session (workflow_url profile) n = true ->
  is_Some (deploy n profile repo commit session).
Proof.
  intros H. unfold deploy.
  destruct (hash_files (tree commit) (files profile)); [|eauto].
  destruct (fetch_loop_ends session (workflow_url profile) n _
              (sync_start (default [] (common_dir_file repo))) H) as [L HL].
  destruct (workflow_runs_loop _ _ _ _ _ HL) as (s & -> & _). simpl.
  destruct (sync_result s); [|eauto].
  destruct (find_workflow_run _ _ _) as [out_f [r|e]]; [|eauto].
  destruct (artifact_url _ _ _) as [out_a [url|e]]; eauto.
Qed.

Lemma deploy_ends_witness :
  is_Some (deploy 2 app_conf_profile sample_repo commit_X full_session).
Proof.
  apply (deploy_ends 2 app_conf_profile sample_repo commit_X full_session).
  reflexivity.
Defined.

(** ** [main] and the exit status *)

(** X17: [main] raises a [ConfigError] before anything else happens when the
    token is not in the environment (checked first), when no commit is
    given and the work tree is dirty, or when the given commit does not
    resolve; the script then prints the message and exits with status 128.
    For a profile of the registry, 128 is the exit status in these cases
    only: a dirty work tree is no fault once a commit is given, and nothing
    in a deploy ends that way. *)
Theorem main_config_fault fuel args environ co remote profile :
  (list_to_map PROFILES : gmap string Profile) !! args_profile args
  = Some profile ->
  (environ !! "GITHUB_API_TOKEN" = None ->
   script fuel args environ co remote = Some ([token_help], 128%Z)) /\
  (forall token,
      environ !! "GITHUB_API_TOKEN" = Some token ->
      args_commit args = None -> is_dirty co = true ->
      script fuel args environ co remote = Some ([dirty_help], 128%Z)) /\
  (forall token name err,
      environ !! "GITHUB_API_TOKEN" = Some token ->
      args_commit args = Some name -> repo_commit co name = inl err ->
      script fuel args environ co remote = Some ([err], 128%Z)) /\
  (forall e, config_fault args environ co ->
             main fuel args environ co remote = Some e ->
             exists msg, e = Finished (config_error co msg)) /\
  (forall out code,
      script fuel args environ co remote = Some (out, code) ->
      code = 128%Z <-> config_fault args environ co).
Proof.
  intros Hp. unfold script, main, config_fault. rewrite Hp.
  split; [by intros ->|].
  split; [by intros token -> -> ->|].
  split; [by intros token name err -> -> ->|].
  split.
  - intros e [Ht|[(Hc & Hd)|(name & err & Hc & Hn)]].
    + rewrite Ht. intros [= <-]. eauto.
    + destruct (environ !! _); [|intros [= <-]; eauto].
      rewrite Hc, Hd. intros [= <-]. eauto.
    + destruct (environ !! _); [|intros [= <-]; eauto].
      rewrite Hc, Hn. intros [= <-]. eauto.
  - intros out code.
    destruct (environ !! "GITHUB_API_TOKEN") as [token|];
      [|simpl; intros [= <- <-]; split; [by left | done]].
    destruct (args_commit args) as [name|].
    + destruct (repo_commit co name) as [err|commit] eqn:Hn.
      * simpl. intros [= <- <-]. split; [|done]. intros _. right. right.
        by exists name, err.
      * intros (e & (d & Hd & ->)%fmap_Some & Hout)%bind_Some.
        destruct (d_result d) as [[r url]|ex] eqn:Hres.
        -- injection Hout as <- <-. split; [done|].
           intros [?|[(? & _)|(n & er & [= <-] & ?)]]; congruence.
        -- destruct ex; injection Hout as <- <-;
             try (split; [done|];
                  intros [?|[(? & _)|(n & er & [= <-] & ?)]]; congruence).
           by destruct (deploy_no_config_error _ _ _ _ _ _ _ Hd Hres).
    + destruct (is_dirty co) eqn:Hdirty.
      * simpl. intros [= <- <-]. split; [|done]. intros _. right. by left.
      * intros (e & (d & Hd & ->)%fmap_Some & Hout)%bind_Some.
        destruct (d_result d) as [[r url]|ex] eqn:Hres.
        -- injection Hout as <- <-. split; [done|].
           intros [?|[(_ & ?)|(n & er & ? & _)]]; congruence.
        -- destruct ex; injection Hout as <- <-;
             try (split; [done|];
                  intros [?|[(_ & ?)|(n & er & ? & _)]]; congruence).
           by destruct (deploy_no_config_error _ _ _ _ _ _ _ Hd Hres).
Qed.

Lemma main_config_fault_witness :
  script 0 sample_args ∅ dirty_checkout (fun _ => full_session)
  = Some ([token_help], 128%Z) /\
  script 0 sample_args sample_environ dirty_checkout (fun _ => full_session)
  = Some ([dirty_help], 128%Z).
Proof.
  destruct (main_config_fault 0 sample_args ∅ dirty_checkout
              (fun _ => full_session) khiaw_server eq_refl) as (H1 & _).
  destruct (main_config_fault 0 sample_args sample_environ dirty_checkout
              (fun _ => full_session) khiaw_server eq_refl) as (_ & H2 & _).
  split; [exact (H1 eq_refl)|].
  exact (H2 "0123456789abcdef" eq_refl eq_refl eq_refl).
Defined.

(** ** [deploy_script] *)

Lemma append_inj_r (s a b : string) : s +:+ a = s +:+ b -> a = b.
Proof. induction s as [|c s IH]; simpl; [done|]. intros [= H]. by apply IH. Qed.

(** X18: the script depends on the run through its id only, and the
    directory an artifact is unpacked into belongs to one run: for one
    profile, two runs share it exactly when they have the same id.  The
    script has one command for each symlink of the profile besides its
    twenty fixed commands. *)
Theorem deploy_script_run_directory quote profile authorization r r' url :
  (artifact_unzipped profile r = artifact_unzipped profile r' <->
   run_id (run r) = run_id (run r')) /\
  (run_id (run r) = run_id (run r') ->
   deploy_script quote profile authorization r url =
   deploy_script quote profile authorization r' url) /\
  length (deploy_script quote profile authorization r url)
  = 20 + length (symlinks profile).
Proof.
  split; [|split].
  - unfold artifact_unzipped. split; [|by intros ->].
    intros H. repeat apply append_inj_r in H.
    by apply (inj pretty) in H.
  - intros H. unfold deploy_script, artifact_zip, artifact_unzipped.
    by rewrite H.
  - unfold deploy_script. rewrite !length_app, length_map. simpl. lia.
Qed.

Lemma deploy_script_run_directory_witness :
  deploy_script (fun s => s) khiaw_server "token 0123456789abcdef"
                (cached SERVER_BUILD_URL run_good) "u" =
  deploy_script (fun s => s) khiaw_server "token 0123456789abcdef"
                (cached ASSETS_BUILD_URL
                   (sample_run 12 "in_progress" None "Q")) "u".
Proof.
  apply (proj1 (proj2 (deploy_script_run_directory (fun s => s) khiaw_server
                         "token 0123456789abcdef"
                         (cached SERVER_BUILD_URL run_good)
                         (cached ASSETS_BUILD_URL
                            (sample_run 12 "in_progress" None "Q")) "u"))).
  reflexivity.
Defined.

Example deploy_script_sample :
  deploy_script (fun s => "'" +:+ s +:+ "'") khiaw_server "token t"
                (cached SERVER_BUILD_URL run_good) "u" !! 3 =
  Some ("[ -f /home/lichess-artifacts/lila-server-12.zip ] || wget "
        +:+ "--header='Authorization: token t' --no-clobber -O "
        +:+ "/home/lichess-artifacts/lila-server-12.zip 'u'").
Proof. reflexivity. Qed.
